(** * The recurring-appointment scheduling engine of counseling-server.js

    A shallow embedding of [parseRRule], [genWeeklyInstances], the
    [/api/schedule/week] handler (exception overlay, merge and sort) and the
    [/api/ics] handler, then of [safeName], [getClientStats] and the handlers
    that write clients and appointments, followed by the properties stated
    about them.

    Conventions of the embedding.
    - Timestamps are integral epoch milliseconds ([Z]); arithmetic on them is
      exact, as it is on JavaScript numbers inside the range of [Date].
    - What the code takes from the machine it runs on is a parameter, the
      [host]: the offset of local time from UTC at each instant, the offset
      by which a local time is read back, and the case mapping of strings.
      Nothing is assumed of them, so a property stated for every host holds
      under daylight saving and for every letter; a property that needs a
      constant offset is stated for the hosts [fixed_zone].
    - Strings are sequences of bytes (UTF-8); splitting at an ASCII character
      and comparing with an ASCII name act on them as on the code's strings.
    - The SQLite tables are lists of rows in row order; a [SELECT] without
      [ORDER BY] is read in that order. Storage failures (the handlers'
      [catch] branches) are not modelled, but for the INSERT of an id that
      its table already holds in the handlers that write.
    - On such inputs no embedded function can throw, so each is a total
      function; the one loop runs on fuel, and [loop_exits] shows that the
      fuel given is enough for the loop to leave through its own test. *)

From stdpp Require Import gmap strings list pretty sorting.
From Stdlib Require Import Ascii ZArith Lia Sorted Permutation.

Open Scope Z_scope.

(** ** JavaScript primitives *)

Module Js.

(** A Number: not-a-number, an infinity, or a finite rational [num/den]
    (every finite binary64 value is one). *)
Inductive number : Type :=
| NaN
| PosInf
| NegInf
| Fin (num : Z) (den : positive).

Definition of_Z (n : Z) : number := Fin n 1.

(** [String.prototype.split] with a one-character separator. *)
Fixpoint split (sep : ascii) (s : string) : list string :=
  match s with
  | EmptyString => [EmptyString]
  | String c rest =>
      if Ascii.eqb c sep then EmptyString :: split sep rest
      else match split sep rest with
           | piece :: pieces => String c piece :: pieces
           | [] => [String c EmptyString]
           end
  end.

Definition upper_char (c : ascii) : ascii :=
  let n := nat_of_ascii c in
  if ((97 <=? n) && (n <=? 122))%nat then ascii_of_nat (n - 32) else c.

(** The case mapping of the letters a to z alone: what
    [String.prototype.toUpperCase] does to a string of ASCII characters. *)
Fixpoint ascii_upper (s : string) : string :=
  match s with
  | EmptyString => EmptyString
  | String c rest => String (upper_char c) (ascii_upper rest)
  end.

(** [Array.prototype.includes] on an array of strings. *)
Definition includes (l : list string) (x : string) : bool :=
  existsb (String.eqb x) l.

(** [Array.prototype.join]. *)
Fixpoint join (sep : string) (l : list string) : string :=
  match l with
  | [] => EmptyString
  | [x] => x
  | x :: rest => x +:+ sep +:+ join sep rest
  end.

(** *** [Number(string)] *)

(** The white space and line terminators that StringToNumber strips, as
    UTF-8 bytes: U+0009 to U+000D, U+0020, U+00A0, U+1680, U+2000 to U+200A,
    U+2028, U+2029, U+202F, U+205F, U+3000 and U+FEFF. *)
Definition spaces : list (list ascii) :=
  map (map ascii_of_nat)
    [[9]; [10]; [11]; [12]; [13]; [32]; [194; 160]; [225; 154; 128];
     [226; 128; 128]; [226; 128; 129]; [226; 128; 130]; [226; 128; 131];
     [226; 128; 132]; [226; 128; 133]; [226; 128; 134]; [226; 128; 135];
     [226; 128; 136]; [226; 128; 137]; [226; 128; 138]; [226; 128; 168];
     [226; 128; 169]; [226; 128; 175]; [226; 129; 159]; [227; 128; 128];
     [239; 187; 191]]%nat.

(** [l] without its prefix [p]. *)
Fixpoint strip_prefix (p l : list ascii) : option (list ascii) :=
  match p, l with
  | [], _ => Some l
  | a :: p', b :: l' => if Ascii.eqb a b then strip_prefix p' l' else None
  | _ :: _, [] => None
  end.

(** [l] without the characters of [sp] it begins with; [fuel] bounds their
    number. *)
Fixpoint drop_spaces (fuel : nat) (sp : list (list ascii)) (l : list ascii)
  : list ascii :=
  match fuel with
  | O => l
  | S fuel' =>
      match omap (fun p => strip_prefix p l) sp with
      | rest :: _ => drop_spaces fuel' sp rest
      | [] => l
      end
  end.

Definition trim (l : list ascii) : list ascii :=
  let l1 := drop_spaces (length l) spaces l in
  rev (drop_spaces (length l) (map (@rev ascii) spaces) (rev l1)).

Definition digit_of (base : Z) (c : ascii) : option Z :=
  let n := Z.of_nat (nat_of_ascii c) in
  let v := if (48 <=? n) && (n <=? 57) then n - 48
           else if (97 <=? n) && (n <=? 102) then n - 87
           else if (65 <=? n) && (n <=? 70) then n - 55
           else base in
  if v <? base then Some v else None.

(** The longest prefix of digits: its value, its length, and the rest. *)
Fixpoint digits (base : Z) (acc : Z) (len : Z) (l : list ascii)
  : Z * Z * list ascii :=
  match l with
  | c :: rest =>
      match digit_of base c with
      | Some v => digits base (acc * base + v) (len + 1) rest
      | None => (acc, len, l)
      end
  | [] => (acc, len, [])
  end.

(** Nearest integer to [n/d] ([d > 0]), ties to even. *)
Definition round_half_even (n d : Z) : Z :=
  let q := n / d in
  match (2 * (n mod d)) ?= d with
  | Lt => q
  | Gt => q + 1
  | Eq => if Z.even q then q else q + 1
  end.

Definition reduced (n d : Z) : number :=
  let g := Z.gcd n d in
  if g =? 0 then Fin 0 1 else Fin (n / g) (Z.to_pos (d / g)).

(** Round the positive rational [n/d] to binary64 (53-bit significand,
    gradual underflow, overflow to infinity). *)
Definition round_binary64 (neg : bool) (n d : Z) : number :=
  if n =? 0 then Fin 0 1 else
  let e0 := Z.log2 n - Z.log2 d in
  let e := if e0 <? 0
           then (if d <=? n * 2 ^ (- e0) then e0 else e0 - 1)
           else (if d * 2 ^ e0 <=? n then e0 else e0 - 1) in
  let sh := Z.max (e - 52) (-1074) in
  let m := if sh <? 0 then round_half_even (n * 2 ^ (- sh)) d
           else round_half_even n (d * 2 ^ sh) in
  let sm := if neg then - m else m in
  if sh <? 0 then reduced sm (2 ^ (- sh))
  else if 2 ^ 1024 <=? m * 2 ^ sh then (if neg then NegInf else PosInf)
  else Fin (sm * 2 ^ sh) 1.

Definition exponent_part (l : list ascii) : option Z :=
  match l with
  | [] => Some 0
  | c :: rest =>
      if Ascii.eqb c "e" || Ascii.eqb c "E" then
        let '(neg, rest) :=
          match rest with
          | s :: rest' =>
              if Ascii.eqb s "-" then (true, rest')
              else if Ascii.eqb s "+" then (false, rest')
              else (false, rest)
          | [] => (false, rest)
          end in
        match digits 10 0 0 rest with
        | (v, len, []) => if 0 <? len then Some (if neg then - v else v) else None
        | _ => None
        end
      else None
  end.

Definition decimal_literal (neg : bool) (l : list ascii) : number :=
  if bool_decide (l = String.list_ascii_of_string "Infinity")
  then (if neg then NegInf else PosInf) else
  let '(ip, ilen, rest) := digits 10 0 0 l in
  let '(mant, flen, rest) :=
    match rest with
    | c :: rest' =>
        if Ascii.eqb c "." then
          let '(m, len, rest'') := digits 10 ip 0 rest' in (m, len, rest'')
        else (ip, 0, rest)
    | [] => (ip, 0, rest)
    end in
  if (ilen + flen) =? 0 then NaN else
  match exponent_part rest with
  | Some ex =>
      let p := ex - flen in
      if p <? 0 then round_binary64 neg mant (10 ^ (- p))
      else round_binary64 neg (mant * 10 ^ p) 1
  | None => NaN
  end.

Definition radix_literal (base : Z) (l : list ascii) : number :=
  match digits base 0 0 l with
  | (v, len, []) => if 0 <? len then round_binary64 false v 1 else NaN
  | _ => NaN
  end.

(** [Number(s)] for a string [s] (the StringToNumber conversion). *)
Definition Number (s : string) : number :=
  match trim (String.list_ascii_of_string s) with
  | [] => Fin 0 1
  | c :: rest =>
      if Ascii.eqb c "-" then decimal_literal true rest
      else if Ascii.eqb c "+" then decimal_literal false rest
      else match rest with
           | x :: rest' =>
               if Ascii.eqb c "0" && (Ascii.eqb x "x" || Ascii.eqb x "X")
               then radix_literal 16 rest'
               else if Ascii.eqb c "0" && (Ascii.eqb x "o" || Ascii.eqb x "O")
               then radix_literal 8 rest'
               else if Ascii.eqb c "0" && (Ascii.eqb x "b" || Ascii.eqb x "B")
               then radix_literal 2 rest'
               else decimal_literal false (c :: rest)
           | [] => decimal_literal false (c :: rest)
           end
  end.

(** [Math.max(1, x)]. *)
Definition max1 (x : number) : number :=
  match x with
  | NaN => NaN
  | PosInf => PosInf
  | NegInf => Fin 1 1
  | Fin n d => if n <=? Z.pos d then Fin 1 1 else Fin n d
  end.

(** [w % x === 0] for an integer [w]. *)
Definition rem_is_zero (w : Z) (x : number) : bool :=
  match x with
  | NaN => false
  | PosInf | NegInf => w =? 0
  | Fin n d => if n =? 0 then false else (w * Z.pos d) mod Z.abs n =? 0
  end.

(** [x || y] where [x] is a nullable number: null and 0 are falsy. *)
Definition or_num (x : option Z) (y : Z) : Z :=
  match x with
  | Some n => if n =? 0 then y else n
  | None => y
  end.

(** [x || y] where [x] is a string or undefined: the empty string is falsy. *)
Definition or_str (x : option string) (y : string) : string :=
  match x with
  | Some EmptyString | None => y
  | Some s => s
  end.

End Js.

(** ** Rows of the SQLite tables *)

Module Client.
Record t : Type := mk { id : string; name : string }.
End Client.

Module Appointment.
Record t : Type := mk {
  id : string;
  client_id : string;
  start_at : Z;
  end_at : Z;
  status : string;
  recurring_series_id : option string;
  original_instance_at : option Z;
}.
End Appointment.

Module Series.
Record t : Type := mk {
  id : string;
  client_id : string;
  rrule : string;
  dtstart : Z;
  duration_min : Z;
  until_at : option Z;
  count : option Z;
}.
End Series.

Module Exception.
Record t : Type := mk {
  id : string;
  recurring_series_id : string;
  original_instance_at : Z;
  new_start_at : option Z;
  new_end_at : option Z;
  status : string;
}.
End Exception.

Record store : Type := {
  clients : list Client.t;
  appointments : list Appointment.t;
  recurring_series : list Series.t;
  recurring_exceptions : list Exception.t;
}.

(** ** The host *)

(** The machine the server runs on, as far as the code reads it.
    - [offset_at t]: local time minus UTC at the instant [t], the offset in
      force in the server's zone at that instant.
    - [offset_of_local l]: the offset by which [Date] turns the local time
      [l] (milliseconds of the local calendar) back into an instant; for a
      local time that a change of offset skips or repeats it is the offset
      before the change.
    - [toUpperCase]: [String.prototype.toUpperCase]. *)
Record host : Type := {
  offset_at : Z → Z;
  offset_of_local : Z → Z;
  toUpperCase : string → string;
}.

(** A host whose zone keeps the offset [tz] for ever. *)
Definition fixed_zone (tz : Z) (upper : string → string) : host :=
  {| offset_at := fun _ => tz;
     offset_of_local := fun _ => tz;
     toUpperCase := upper |}.

(** ** parseRRule *)

(** One [forEach] step: [const [k, v] = piece.split('=');
    if (k && v) map[k.toUpperCase()] = v]. *)
Definition parse_piece (upper : string → string) (map : gmap string string)
    (piece : string) : gmap string string :=
  match Js.split "=" piece with
  | String a k :: String b v :: _ =>
      <[upper (String a k) := String b v]> map
  | _ => map
  end.

(** [upper] is the host's [toUpperCase]. *)
Definition parseRRule (upper : string → string) (rrule : string)
  : gmap string string :=
  foldl (parse_piece upper) ∅ (Js.split ";" rrule).

(** ** Local time *)

Definition weekdayMap : list string :=
  ["SU"; "MO"; "TU"; "WE"; "TH"; "FR"; "SA"].

Definition dayMs : Z := 24 * 3600 * 1000.

(** An item of the array returned by [genWeeklyInstances]. *)
Module Instance.
Record t : Type := mk {
  original_instance_at : Z;
  start_at : Z;
  end_at : Z;
}.
End Instance.

(** The state of the generator's [while] loop. *)
Record loop_state : Type := {
  cursor : Z;
  produced : Z;
  generated : list Instance.t;
}.

(** [Number(x || 0) || null] for a nullable integer column. *)
Definition number_or_null (x : option Z) : option Z :=
  match x with
  | Some n => if n =? 0 then None else Some n
  | None => None
  end.

Section Engine.

Variable h : host.

(** [new Date(t)] read in local time: the milliseconds of the local
    calendar. *)
Definition local (t : Z) : Z := t + offset_at h t.

(** [new Date(t).getDay()]; 1970-01-01 was a Thursday. *)
Definition getDay (t : Z) : Z := (local t / dayMs + 4) mod 7.

Definition getHours (t : Z) : Z := (local t mod dayMs) / 3600000.

Definition getMinutes (t : Z) : Z := (local t mod 3600000) / 60000.

(** [new Date(t).setHours(hours, m, 0, 0)]: the local day of [t] at the
    given hour and minute, read back as an instant. *)
Definition setHours (t hours m : Z) : Z :=
  let date := local t - local t mod dayMs + hours * 3600000 + m * 60000 in
  date - offset_of_local h date.

(** ** genWeeklyInstances *)

Section Loop.

Variables (series : Series.t) (weekStart weekEnd : Z).
Variables (byday : list string) (interval : Js.number).

Definition loop_body (st : loop_state) : loop_state :=
  let until := number_or_null (Series.until_at series) in
  let count := number_or_null (Series.count series) in
  let dt := Series.dtstart series in
  let startMinutes := getHours dt * 60 + getMinutes dt in
  let wd := weekdayMap !!! Z.to_nat (getDay (cursor st)) in
  let weeksFromStart := (cursor st - setHours dt 0 0) / (7 * dayMs) in
  let pushed :=
    if (0 <=? weeksFromStart) && Js.rem_is_zero weeksFromStart interval
       && Js.includes byday wd
    then
      let s := setHours (cursor st) (startMinutes / 60) (startMinutes mod 60) in
      let e := s + Js.or_num (Some (Series.duration_min series)) 50 * 60 * 1000 in
      if (weekStart <=? s) && (s <=? weekEnd) && (dt <=? s) then
        if match until with Some u => u <? s | None => false end then st
        else if match count with Some c => c <=? produced st | None => false end
        then st
        else {| cursor := cursor st;
                produced := produced st + 1;
                generated := generated st ++ [Instance.mk s s e] |}
      else st
    else st in
  {| cursor := cursor pushed + dayMs;
     produced := produced pushed;
     generated := generated pushed |}.

(** [while (cursor.getTime() <= weekEnd) { ... }], unrolled at most
    [fuel] times. *)
Fixpoint while_loop (fuel : nat) (st : loop_state) : loop_state :=
  match fuel with
  | O => st
  | S fuel' =>
      if cursor st <=? weekEnd then while_loop fuel' (loop_body st) else st
  end.

End Loop.

(** The number of days from [from] through [weekEnd]: the number of times
    the loop body runs. *)
Definition iterations (from weekEnd : Z) : nat :=
  Z.to_nat ((weekEnd - from) / dayMs + 1).

Definition genWeeklyInstances (series : Series.t) (weekStart weekEnd : Z)
  : list Instance.t :=
  let rule := parseRRule (toUpperCase h) (Series.rrule series) in
  if bool_decide (rule !! "FREQ" = Some "WEEKLY") then
    let byday :=
      Js.split ","
        (Js.or_str (rule !! "BYDAY")
           (weekdayMap !!! Z.to_nat (getDay (Series.dtstart series)))) in
    let interval :=
      Js.max1 (match rule !! "INTERVAL" with
               | Some (String _ _ as v) => Js.Number v
               | _ => Js.of_Z 1
               end) in
    let start := setHours weekStart 0 0 in
    generated
      (while_loop series weekStart weekEnd byday interval
         (iterations start weekEnd)
         {| cursor := start; produced := 0; generated := [] |})
  else [].

End Engine.

(** ** UTC calendar fields and formatIcsDate *)

(** Year, month (1-12) and day of month of the day number [days] counted
    from 1970-01-01 in the proleptic Gregorian calendar. *)
Definition civil_of_days (days : Z) : Z * Z * Z :=
  let z := days + 719468 in
  let era := z / 146097 in
  let doe := z - era * 146097 in
  let yoe := (doe - doe / 1460 + doe / 36524 - doe / 146096) / 365 in
  let doy := doe - (365 * yoe + yoe / 4 - yoe / 100) in
  let mp := (5 * doy + 2) / 153 in
  let d := doy - (153 * mp + 2) / 5 + 1 in
  let m := if mp <? 10 then mp + 3 else mp - 9 in
  let y := yoe + era * 400 in
  (if m <=? 2 then y + 1 else y, m, d).

Definition getUTCFullYear (t : Z) : Z := (civil_of_days (t / dayMs)).1.1.
Definition getUTCMonth (t : Z) : Z := (civil_of_days (t / dayMs)).1.2 - 1.
Definition getUTCDate (t : Z) : Z := (civil_of_days (t / dayMs)).2.
Definition getUTCHours (t : Z) : Z := (t mod dayMs) / 3600000.
Definition getUTCMinutes (t : Z) : Z := (t mod 3600000) / 60000.
Definition getUTCSeconds (t : Z) : Z := (t mod 60000) / 1000.

(** [String(n).padStart(2, '0')]. *)
Definition pad (n : Z) : string :=
  let s := pretty n in
  if (String.length s <? 2)%nat then "0" +:+ s else s.

Definition formatIcsDate (epochMs : Z) : string :=
  pretty (getUTCFullYear epochMs) +:+ pad (getUTCMonth epochMs + 1)
  +:+ pad (getUTCDate epochMs) +:+ "T" +:+ pad (getUTCHours epochMs)
  +:+ pad (getUTCMinutes epochMs) +:+ pad (getUTCSeconds epochMs) +:+ "Z".

(** ** Queries shared by the handlers *)

(** [FROM appointments a JOIN clients c ON c.id = a.client_id]: every
    appointment paired with the name of each client row of that id. *)
Definition appointments_join_clients (db : store)
  : list (Appointment.t * string) :=
  flat_map
    (fun a =>
       map (fun c => (a, Client.name c))
         (filter (fun c => Client.id c = Appointment.client_id a) (clients db)))
    (appointments db).

(** [get('SELECT ... FROM recurring_series WHERE id = ?')]: the first row. *)
Definition series_by_id (db : store) (sid : string) : option Series.t :=
  head (filter (fun s => Series.id s = sid) (recurring_series db)).

(** [get('SELECT name FROM clients WHERE id = ?')]. *)
Definition client_by_id (db : store) (cid : string) : option Client.t :=
  head (filter (fun c => Client.id c = cid) (clients db)).

(** ** GET /api/schedule/week *)

(** An element of the JSON array the handler answers with. *)
Module Event.
Record t : Type := mk {
  id : string;
  source : string;
  clientId : string;
  clientName : string;
  startAt : Z;
  endAt : Z;
  status : string;
  recurringSeriesId : option string;
  originalInstanceAt : option Z;
}.
End Event.

(** What a handler sends: a 200 body, or status 400 with an error text. *)
Inductive response (A : Type) : Type :=
| Ok (body : A)
| BadRequest (error : string).
Arguments Ok {A} body.
Arguments BadRequest {A} error.

Definition single_event (row : Appointment.t * string) : Event.t :=
  let r := row.1 in
  {| Event.id := Appointment.id r;
     Event.source := "single";
     Event.clientId := Appointment.client_id r;
     Event.clientName := row.2;
     Event.startAt := Appointment.start_at r;
     Event.endAt := Appointment.end_at r;
     Event.status := Appointment.status r;
     Event.recurringSeriesId := Appointment.recurring_series_id r;
     Event.originalInstanceAt := Appointment.original_instance_at r |}.

(** [new Map(exceptions.map((e) => [e.original_instance_at, e]))]: a later
    row replaces an earlier one of the same key. *)
Definition exception_map (exceptions : list Exception.t) : gmap Z Exception.t :=
  foldl (fun m e => <[Exception.original_instance_at e := e]> m) ∅ exceptions.

(** The body of [for (const item of generated)]: [None] is [continue]. *)
Definition overlay (series : Series.t) (client : option Client.t)
    (mapEx : gmap Z Exception.t) (item : Instance.t) : option Event.t :=
  let ex := mapEx !! Instance.original_instance_at item in
  if bool_decide (Exception.status <$> ex = Some "Canceled") then None
  else Some
    {| Event.id :=
         Series.id series +:+ ":" +:+ pretty (Instance.original_instance_at item);
       Event.source := "recurring";
       Event.clientId := Series.client_id series;
       Event.clientName := Js.or_str (Client.name <$> client) "未知个案";
       Event.startAt :=
         Js.or_num (ex ≫= Exception.new_start_at) (Instance.start_at item);
       Event.endAt :=
         Js.or_num (ex ≫= Exception.new_end_at) (Instance.end_at item);
       Event.status := "Scheduled";
       Event.recurringSeriesId := Some (Series.id series);
       Event.originalInstanceAt := Some (Instance.original_instance_at item) |}.

(** [eventList.sort((a, b) => a.startAt - b.startAt)]: the sort is stable,
    so it is given as a stable insertion sort. *)
Fixpoint insert_event (x : Event.t) (l : list Event.t) : list Event.t :=
  match l with
  | [] => [x]
  | y :: rest =>
      if Event.startAt x <=? Event.startAt y then x :: l
      else y :: insert_event x rest
  end.

Definition sort_events (l : list Event.t) : list Event.t :=
  foldr insert_event [] l.

Section Handlers.

Variable h : host.

(** The events pushed by one turn of [for (const series of seriesRows)]. *)
Definition series_events (db : store) (weekStart weekEnd : Z)
    (series : Series.t) : list Event.t :=
  let client := client_by_id db (Series.client_id series) in
  let generated := genWeeklyInstances h series weekStart weekEnd in
  let exceptions :=
    filter (fun e => Exception.recurring_series_id e = Series.id series)
      (recurring_exceptions db) in
  omap (overlay series client (exception_map exceptions)) generated.

Definition singles (db : store) (weekStart weekEnd : Z)
  : list (Appointment.t * string) :=
  filter (fun row => weekStart ≤ Appointment.start_at row.1 ≤ weekEnd)
    (appointments_join_clients db).

Definition seriesRows (db : store) (weekStart weekEnd : Z) : list Series.t :=
  filter
    (fun s => (Series.dtstart s <=? weekEnd)
              && match Series.until_at s with
                 | Some u => weekStart <=? u
                 | None => true
                 end)
    (recurring_series db).

(** [eventList] as it stands before the final sort. *)
Definition eventList (db : store) (weekStart weekEnd : Z) : list Event.t :=
  map single_event (singles db weekStart weekEnd)
  ++ flat_map (series_events db weekStart weekEnd)
       (seriesRows db weekStart weekEnd).

(** The handler. [weekStart] and [weekEnd] are [Number(req.query...)]:
    [None] is NaN (the parameter is missing or not numeric). *)
Definition schedule_week (db : store) (weekStart weekEnd : option Z)
  : response (list Event.t) :=
  match weekStart, weekEnd with
  | Some ws, Some we =>
      if (ws =? 0) || (we =? 0)
      then BadRequest "weekStart and weekEnd required"
      else Ok (sort_events (eventList db ws we))
  | _, _ => BadRequest "weekStart and weekEnd required"
  end.

End Handlers.

(** ** GET /api/ics *)

Definition CRLF : string := String "013" (String "010" EmptyString).

(** [s.replace(/[,;\\]/g, '')]. *)
Fixpoint strip_reserved (s : string) : string :=
  match s with
  | EmptyString => EmptyString
  | String c rest =>
      if Ascii.eqb c "," || Ascii.eqb c ";" || Ascii.eqb c "\"
      then strip_reserved rest
      else String c (strip_reserved rest)
  end.

(** The rows read by the export: [WHERE a.status != 'Canceled']. *)
Definition ics_events (db : store) : list (Appointment.t * string) :=
  filter (fun row => Appointment.status row.1 ≠ "Canceled")
    (appointments_join_clients db).

(** The [RRULE] line of an event, when one is pushed. *)
Definition rrule_line (db : store) (e : Appointment.t) : list string :=
  match Appointment.recurring_series_id e with
  | Some (String _ _ as sid) =>
      match series_by_id db sid with
      | Some series =>
          match Series.rrule series with
          | EmptyString => []
          | rule => ["RRULE:" +:+ rule]
          end
      | None => []
      end
  | _ => []
  end.

(** The lines pushed by one turn of [for (const e of events)]; [stamp] is
    the value of [now()] in that turn. *)
Definition vevent (db : store) (stamp : Z) (row : Appointment.t * string)
  : list string :=
  let e := row.1 in
  ["BEGIN:VEVENT";
   "UID:" +:+ Appointment.id e +:+ "@local";
   "DTSTAMP:" +:+ formatIcsDate stamp;
   "DTSTART:" +:+ formatIcsDate (Appointment.start_at e);
   "DTEND:" +:+ formatIcsDate (Appointment.end_at e);
   "SUMMARY:" +:+ strip_reserved row.2]
  ++ (if bool_decide (Appointment.status e = "Canceled")
      then ["STATUS:CANCELLED"] else [])
  ++ rrule_line db e
  ++ ["END:VEVENT"].

(** The array [lines]; [now i] is the clock read in turn [i] of the loop. *)
Definition ics_lines (db : store) (now : nat -> Z) : list string :=
  ["BEGIN:VCALENDAR"; "VERSION:2.0"; "PRODID:-//Counseling CRM//CN";
   "CALSCALE:GREGORIAN"]
  ++ concat (imap (fun i row => vevent db (now i) row) (ics_events db))
  ++ ["END:VCALENDAR"].

(** The text sent with content type [text/calendar]. *)
Definition ics (db : store) (now : nat -> Z) : string :=
  Js.join CRLF (ics_lines db now) +:+ CRLF.

(** ** File names *)

(** The character class of [safeName]: backslash, slash, colon, asterisk,
    question mark, double quote, angle brackets and bar. *)
Definition forbidden (c : ascii) : bool :=
  existsb (Ascii.eqb c) ["\"; "/"; ":"; "*"; "?"; "034"; "<"; ">"; "|"]%char.

(** [s.replace(/[...]/g, '-')] for that class. *)
Fixpoint replace_forbidden (s : string) : string :=
  match s with
  | EmptyString => EmptyString
  | String c rest =>
      String (if forbidden c then "-"%char else c) (replace_forbidden rest)
  end.

(** [s.slice(0, n)], over the bytes of [s]: the code counts UTF-16 units,
    which for an ASCII name are its bytes. *)
Fixpoint slice0 (n : nat) (s : string) : string :=
  match n, s with
  | S n', String c rest => String c (slice0 n' rest)
  | _, _ => EmptyString
  end.

(** [safeName]; [None] is an undefined or null argument. *)
Definition safeName (s : option string) : string :=
  Js.or_str (Some (slice0 128 (replace_forbidden (Js.or_str s ""))))
    "untitled".

(** ** getClientStats *)

Module Stats.
Record t : Type := mk {
  completedCount : Z;
  totalHours : Z;
  lastCompletedAt : option Z;
  nextScheduledAt : option Z;
}.
End Stats.

(** [x || null] for a nullable number. *)
Definition or_null (x : option Z) : option Z :=
  match x with
  | Some n => if n =? 0 then None else Some n
  | None => None
  end.

(** [SELECT MAX(col)] and [SELECT MIN(col)]: NULL when no row is selected. *)
Definition sql_max (col : list Z) : option Z :=
  match col with
  | [] => None
  | x :: rest => Some (foldl Z.max x rest)
  end.

Definition sql_min (col : list Z) : option Z :=
  match col with
  | [] => None
  | x :: rest => Some (foldl Z.min x rest)
  end.

(** [now] is the clock read for the third query. *)
Definition getClientStats (db : store) (now : Z) (clientId : string)
  : Stats.t :=
  let completed :=
    filter (fun a => Appointment.client_id a = clientId
                     ∧ Appointment.status a = "Completed"%string)
      (appointments db) in
  let upcoming :=
    filter (fun a => Appointment.client_id a = clientId
                     ∧ Appointment.status a = "Scheduled"%string
                     ∧ now < Appointment.start_at a)
      (appointments db) in
  let completedCount := Z.of_nat (length completed) in
  {| Stats.completedCount := completedCount;
     Stats.totalHours := completedCount;
     Stats.lastCompletedAt :=
       or_null (sql_max (map Appointment.start_at completed));
     Stats.nextScheduledAt :=
       or_null (sql_min (map Appointment.start_at upcoming)) |}.

(** ** The handlers that write

    A request body is given by the fields the handler reads: a time or a
    duration is an integral number, a name, a status, a scope or a rule a
    string. [None] is an absent field; where the handler reads the field
    through [!], [||], [??] or [===] only (name, clientId, startAt, endAt
    and the status of PATCH) it is a null field as well. The values of
    [uuid()] are arguments. Of the storage failures the one the schema
    decides is kept: an INSERT whose id is already in its table throws, and
    the handler's [catch] answers 500 with the earlier statements done. *)

Definition CLIENT_STATUS : list string :=
  ["Potential"; "Active"; "Paused"; "Closed"; "Referred"].

Definition APPOINTMENT_STATUS : list string :=
  ["Scheduled"; "Completed"; "Canceled"].

(** How a writing handler ends: [Refused] before any statement ran;
    [Threw] with the store as the statements before the failing INSERT left
    it; [Wrote] when every statement ran, [note] telling whether
    [createSessionNoteForAppointment] is called next. The file-system steps
    after the statements, and the [files] table, are outside the store. *)
Inductive outcome : Type :=
| Refused (code : Z)
| Threw (db : store)
| Wrote (db : store) (note : bool).

(** Truthiness of a string or number that may be undefined or null. *)
Definition truthy_str (x : option string) : bool :=
  match x with
  | Some (String _ _) => true
  | _ => false
  end.

Definition truthy_num (x : option Z) : bool :=
  match x with
  | Some n => negb (n =? 0)
  | None => false
  end.

(** POST /api/clients. *)
Definition post_client (db : store) (id : string) (name status : option string)
  : outcome :=
  if negb (truthy_str name) then Refused 400
  else if negb (bool_decide (default "Potential"%string status ∈ CLIENT_STATUS))
  then Refused 400
  else if bool_decide (id ∈ map Client.id (clients db)) then Threw db
  else Wrote
         {| clients := clients db ++ [Client.mk id (default "" name)];
            appointments := appointments db;
            recurring_series := recurring_series db;
            recurring_exceptions := recurring_exceptions db |}
         false.

(** The [recurring] object of POST /api/appointments. *)
Module Recurring.
Record t : Type := mk {
  rrule : string;
  untilAt : option Z;
  count : option Z;
}.
End Recurring.

Module NewAppointment.
Record t : Type := mk {
  clientId : option string;
  startAt : option Z;
  durationMin : option Z;
  recurring : option Recurring.t;
}.
End NewAppointment.

(** POST /api/appointments; [seriesId] and [id] are the values of the two
    calls of [uuid()]. *)
Definition post_appointment (db : store) (seriesId id : string)
    (body : NewAppointment.t) : outcome :=
  let clientId := default ""%string (NewAppointment.clientId body) in
  let startAt := default 0 (NewAppointment.startAt body) in
  let durationMin := default 50 (NewAppointment.durationMin body) in
  let insert_appointment (db1 : store) (recurringSeriesId : option string) :=
    if bool_decide (id ∈ map Appointment.id (appointments db1)) then Threw db1
    else Wrote
           {| clients := clients db1;
              appointments :=
                appointments db1
                ++ [Appointment.mk id clientId startAt
                      (startAt + durationMin * 60 * 1000)
                      "Scheduled" recurringSeriesId None];
              recurring_series := recurring_series db1;
              recurring_exceptions := recurring_exceptions db1 |}
           false in
  if negb (truthy_str (NewAppointment.clientId body))
     || negb (truthy_num (NewAppointment.startAt body))
  then Refused 400
  else if bool_decide (client_by_id db clientId = None) then Refused 404
  else
    match NewAppointment.recurring body with
    | Some recurring =>
        if bool_decide (seriesId ∈ map Series.id (recurring_series db))
        then Threw db
        else insert_appointment
               {| clients := clients db;
                  appointments := appointments db;
                  recurring_series :=
                    recurring_series db
                    ++ [Series.mk seriesId clientId (Recurring.rrule recurring)
                          startAt durationMin
                          (or_null (Recurring.untilAt recurring))
                          (or_null (Recurring.count recurring))];
                  recurring_exceptions := recurring_exceptions db |}
               (Some seriesId)
    | None => insert_appointment db None
    end.

(** The body of PATCH /api/appointments/:id; an absent [scope] is ['this']. *)
Module Patch.
Record t : Type := mk {
  startAt : option Z;
  endAt : option Z;
  status : option string;
  scope : option string;
}.
End Patch.

(** [get('SELECT * FROM appointments WHERE id = ?')]. *)
Definition appointment_by_id (db : store) (id : string)
  : option Appointment.t :=
  head (filter (fun a => Appointment.id a = id) (appointments db)).

(** [UPDATE appointments SET ... WHERE ...]: [set] is applied to the rows
    that [where_] selects. *)
Definition update_appointments (where_ : Appointment.t → bool)
    (set : Appointment.t → Appointment.t) (db : store) : store :=
  {| clients := clients db;
     appointments :=
       map (fun a => if where_ a then set a else a) (appointments db);
     recurring_series := recurring_series db;
     recurring_exceptions := recurring_exceptions db |}.

(** PATCH /api/appointments/:id; [exId] is the value of [uuid()]. *)
Definition patch_appointment (db : store) (exId id : string) (body : Patch.t)
  : outcome :=
  match appointment_by_id db id with
  | None => Refused 404
  | Some appt =>
      let startAt := Patch.startAt body in
      let endAt := Patch.endAt body in
      let status := Patch.status body in
      let scope := default "this"%string (Patch.scope body) in
      let recurring := truthy_str (Appointment.recurring_series_id appt) in
      let sid := default ""%string (Appointment.recurring_series_id appt) in
      let timed := truthy_num startAt || truthy_num endAt in
      let this_row a := bool_decide (Appointment.id a = Appointment.id appt) in
      let note :=
        bool_decide (status = Some "Completed"%string
                     ∧ Appointment.status appt ≠ "Completed"%string) in
      if truthy_str status
         && negb (bool_decide (default ""%string status ∈ APPOINTMENT_STATUS))
      then Refused 400
      else if bool_decide (scope = "series"%string) && recurring && timed then
        let delta :=
          Js.or_num startAt (Appointment.start_at appt)
          - Appointment.start_at appt in
        let db1 :=
          update_appointments
            (fun a => bool_decide (Appointment.recurring_series_id a = Some sid))
            (fun a =>
               Appointment.mk (Appointment.id a) (Appointment.client_id a)
                 (Appointment.start_at a + delta) (Appointment.end_at a + delta)
                 (Appointment.status a) (Appointment.recurring_series_id a)
                 (Appointment.original_instance_at a))
            db in
        Wrote
          {| clients := clients db1;
             appointments := appointments db1;
             recurring_series :=
               map (fun s =>
                      if bool_decide (Series.id s = sid)
                      then Series.mk (Series.id s) (Series.client_id s)
                             (Series.rrule s) (Series.dtstart s + delta)
                             (Series.duration_min s) (Series.until_at s)
                             (Series.count s)
                      else s)
                 (recurring_series db1);
             recurring_exceptions := recurring_exceptions db1 |}
          note
      else if timed && recurring && bool_decide (scope = "this"%string) then
        let key :=
          Js.or_num (Appointment.original_instance_at appt)
            (Appointment.start_at appt) in
        let newStart := Js.or_num startAt (Appointment.start_at appt) in
        let newEnd := Js.or_num endAt (Appointment.end_at appt) in
        if bool_decide (exId ∈ map Exception.id (recurring_exceptions db))
        then Threw db
        else
          Wrote
            (update_appointments this_row
               (fun a =>
                  Appointment.mk (Appointment.id a) (Appointment.client_id a)
                    newStart newEnd (Appointment.status a)
                    (Appointment.recurring_series_id a) (Some key))
               {| clients := clients db;
                  appointments := appointments db;
                  recurring_series := recurring_series db;
                  recurring_exceptions :=
                    recurring_exceptions db
                    ++ [Exception.mk exId sid key (Some newStart) (Some newEnd)
                          "Moved"] |})
            note
      else
        Wrote
          (update_appointments this_row
             (fun a =>
                Appointment.mk (Appointment.id a) (Appointment.client_id a)
                  (default (Appointment.start_at a) startAt)
                  (default (Appointment.end_at a) endAt)
                  (default (Appointment.status a) status)
                  (Appointment.recurring_series_id a)
                  (Appointment.original_instance_at a))
             db)
          note
  end.

(** * Properties *)

(** ** Vocabulary of the statements *)

(** A piece of a rule without ['='] (a malformed pair). *)
Definition malformed (piece : string) : Prop :=
  "="%char ∉ String.list_ascii_of_string piece.

(** A piece whose key, in upper case, is none of the keys the generator
    reads. *)
Definition unknown_key (upper : string → string) (piece : string) : Prop :=
  upper (hd EmptyString (Js.split "=" piece))
    ∉ ["FREQ"; "BYDAY"; "INTERVAL"]%string.

(** A number less than or equal to 1 (NaN is not). *)
Definition at_most_one (x : Js.number) : Prop :=
  match x with
  | Js.NegInf => True
  | Js.Fin n d => n ≤ Z.pos d
  | _ => False
  end.

(** The row [s] with another rule string. *)
Definition with_rrule (s : Series.t) (r : string) : Series.t :=
  Series.mk (Series.id s) (Series.client_id s) r (Series.dtstart s)
    (Series.duration_min s) (Series.until_at s) (Series.count s).

(** The number of the local day that contains [t], in a zone of constant
    offset [tz]. *)
Definition day_of (tz t : Z) : Z := (t + tz) / dayMs.

(** What holds, in a zone of constant offset [tz], of every instance pushed
    so far in loop state [st]. *)
Definition pushed_ok (tz : Z) (series : Series.t) (weekStart weekEnd : Z)
    (st : loop_state) (i : Instance.t) : Prop :=
  weekStart ≤ Instance.start_at i ≤ weekEnd
  ∧ Series.dtstart series ≤ Instance.start_at i
  ∧ Instance.original_instance_at i = Instance.start_at i
  ∧ day_of tz (Instance.start_at i) < day_of tz (cursor st).

Definition loop_inv (tz : Z) (series : Series.t) (weekStart weekEnd : Z)
    (st : loop_state) : Prop :=
  Forall (pushed_ok tz series weekStart weekEnd st) (generated st)
  ∧ StronglySorted (fun a b => Instance.start_at a < Instance.start_at b)
      (generated st).

(** Ascending by [startAt]. *)
Definition sorted_by_startAt (l : list Event.t) : Prop :=
  StronglySorted (fun a b => Event.startAt a ≤ Event.startAt b) l.

(** The events of [l] that start at [t], in the order of [l]. *)
Definition starting_at (t : Z) (l : list Event.t) : list Event.t :=
  filter (fun e => Event.startAt e = t) l.



(** The id given to the virtual occurrence of [series] at [at_]. *)
Definition virtual_id (series : Series.t) (at_ : Z) : string :=
  Series.id series +:+ ":" +:+ pretty at_.

(** The time an overlaid occurrence reports: the exception's new time when
    that is neither null nor 0, the generated time otherwise. *)
Definition moved_time (new_at : option Z) (generated_at : Z) : Z :=
  match new_at with
  | Some n => if decide (n = 0) then generated_at else n
  | None => generated_at
  end.

(** The keys declared by the schema that the export relies on: client ids
    are unique and every appointment's client exists. *)
Record store_keys (db : store) : Prop := {
  client_ids_unique : NoDup (map Client.id (clients db));
  appointment_client_exists :
    ∀ a, a ∈ appointments db →
         ∃ c, c ∈ clients db ∧ Client.id c = Appointment.client_id a;
}.

Definition not_canceled (a : Appointment.t) : Prop :=
  Appointment.status a ≠ "Canceled"%string.

Definition uid_line (a : Appointment.t) : string :=
  "UID:" +:+ Appointment.id a +:+ "@local".

(** [line] begins with [p]. *)
Fixpoint starts_with (p line : string) : bool :=
  match p with
  | EmptyString => true
  | String a p' =>
      match line with
      | String b line' => Ascii.eqb a b && starts_with p' line'
      | EmptyString => false
      end
  end.

Definition is_uid_line (line : string) : bool := starts_with "UID:" line.

Definition is_rrule_line (line : string) : bool := starts_with "RRULE:" line.

Definition is_begin_vevent (line : string) : bool :=
  String.eqb line "BEGIN:VEVENT".

(** [lia] extended to division and remainder by a literal. *)
Ltac div_lia :=
  unfold dayMs in *; Z.to_euclidean_division_equations; lia.

(** ** Sample data: the weekly Wednesday series of 2025-10-08 10:00 UTC *)

(** A host in UTC; the sample strings are ASCII. *)
Definition utc : host := fixed_zone 0 Js.ascii_upper.

Definition wednesday_series (rule : string) : Series.t :=
  Series.mk "s1" "c1" rule 1759917600000 50 None None.

Definition wednesday_anchor : Appointment.t :=
  Appointment.mk "a1" "c1" 1759917600000 1759920600000 "Scheduled"
    (Some "s1"%string) None.

Definition sample_db (rule : string) (exceptions : list Exception.t) : store :=
  {| clients := [Client.mk "c1" "Ann"];
     appointments := [wednesday_anchor];
     recurring_series := [wednesday_series rule];
     recurring_exceptions := exceptions |}.

(** The occurrence of 2025-10-15 10:00 moved to 2025-10-16 14:00. *)
Definition thursday_move : Exception.t :=
  Exception.mk "e1" "s1" 1760522400000 (Some 1760623200000)
    (Some 1760626200000) "Moved".

(** The same occurrence moved to the epoch: [new_start_at] is 0. *)
Definition epoch_move : Exception.t :=
  Exception.mk "e1" "s1" 1760522400000 (Some 0) (Some 3000000) "Moved".

(** The store after the anchor itself was moved, with scope 'this', from
    2025-10-08 10:00 to 2025-10-09 14:00: the row keeps its nominal time in
    [original_instance_at], and an exception records the move. *)
Definition moved_anchor_db : store :=
  {| clients := [Client.mk "c1" "Ann"];
     appointments :=
       [Appointment.mk "a1" "c1" 1760018400000 1760021400000 "Scheduled"
          (Some "s1"%string) (Some 1759917600000)];
     recurring_series := [wednesday_series "FREQ=WEEKLY;BYDAY=WE"];
     recurring_exceptions :=
       [Exception.mk "e1" "s1" 1759917600000 (Some 1760018400000)
          (Some 1760021400000) "Moved"] |}.

(** A store whose only appointment names a client that has no row. *)
Definition orphan_db : store :=
  {| clients := [];
     appointments := [wednesday_anchor];
     recurring_series := [wednesday_series "FREQ=WEEKLY;BYDAY=WE"];
     recurring_exceptions := [] |}.

(** ** Wall-clock times *)

(** The day number, counted from 1970-01-01, of a Gregorian date: the
    inverse of [civil_of_days]. *)
Definition days_of_civil (y m d : Z) : Z :=
  let y' := if m <=? 2 then y - 1 else y in
  let era := y' / 400 in
  let yoe := y' - era * 400 in
  let doy := (153 * (if 2 <? m then m - 3 else m + 9) + 2) / 5 + d - 1 in
  let doe := yoe * 365 + yoe / 4 - yoe / 100 + doy in
  era * 146097 + doe - 719468.

(** [new Date(y, m - 1, d, h, mi).getTime()] in the zone of offset [tz]. *)
Definition local_time (tz y m d h mi : Z) : Z :=
  days_of_civil y m d * dayMs + h * 3600000 + mi * 60000 - tz.

(** A series, an instance and a loop state given by wall-clock times, placed
    in the zone of offset [tz]. *)
Definition zone_series (tz : Z) (s : Series.t) : Series.t :=
  Series.mk (Series.id s) (Series.client_id s) (Series.rrule s)
    (Series.dtstart s - tz) (Series.duration_min s) (Series.until_at s)
    (Series.count s).

Definition zone_instance (tz : Z) (i : Instance.t) : Instance.t :=
  Instance.mk (Instance.original_instance_at i - tz)
    (Instance.start_at i - tz) (Instance.end_at i - tz).

Definition zone_state (tz : Z) (st : loop_state) : loop_state :=
  {| cursor := cursor st - tz;
     produced := produced st;
     generated := map (zone_instance tz) (generated st) |}.

(** ** Vocabulary for the generator as a function of the days *)

Section Days.

Variable h : host.

(** The weekday names and the interval the generator reads off a series. *)
Definition rule_byday (series : Series.t) : list string :=
  Js.split ","
    (Js.or_str (parseRRule (toUpperCase h) (Series.rrule series) !! "BYDAY")
       (weekdayMap !!! Z.to_nat (getDay h (Series.dtstart series)))).

Definition rule_interval (series : Series.t) : Js.number :=
  Js.max1 (match parseRRule (toUpperCase h) (Series.rrule series) !! "INTERVAL"
           with
           | Some (String _ _ as v) => Js.Number v
           | _ => Js.of_Z 1
           end).

(** [instanceStart] in the turn of the cursor [c]: the local day of [c] at
    the hour and minute of dtstart. *)
Definition slot (series : Series.t) (c : Z) : Z :=
  let dt := Series.dtstart series in
  let startMinutes := getHours h dt * 60 + getMinutes h dt in
  setHours h c (startMinutes / 60) (startMinutes mod 60).

(** The instance one turn of the loop makes of the day of [c], when the
    tests other than [count] let it through. *)
Definition candidate (series : Series.t) (weekStart weekEnd : Z)
    (byday : list string) (interval : Js.number) (c : Z) : option Instance.t :=
  let dt := Series.dtstart series in
  let startMinutes := getHours h dt * 60 + getMinutes h dt in
  let weeksFromStart := (c - setHours h dt 0 0) / (7 * dayMs) in
  let s := setHours h c (startMinutes / 60) (startMinutes mod 60) in
  let e := s + Js.or_num (Some (Series.duration_min series)) 50 * 60 * 1000 in
  if (0 <=? weeksFromStart) && Js.rem_is_zero weeksFromStart interval
     && Js.includes byday (weekdayMap !!! Z.to_nat (getDay h c))
     && ((weekStart <=? s) && (s <=? weekEnd) && (dt <=? s))
     && negb match number_or_null (Series.until_at series) with
             | Some u => u <? s
             | None => false
             end
  then Some (Instance.mk s s e)
  else None.

(** The cursors of the loop: the local midnight before [weekStart] and the
    instants whole days after it, up to [weekEnd]. *)
Definition visited (weekStart weekEnd c : Z) : Prop :=
  ∃ k, 0 ≤ k ∧ c = setHours h weekStart 0 0 + k * dayMs ∧ c ≤ weekEnd.

(** The cursor [c] is not before the local midnight of dtstart and shows a
    weekday of the rule: the tests of a turn other than the one on the
    interval. *)
Definition matching_day (series : Series.t) (c : Z) : Prop :=
  setHours h (Series.dtstart series) 0 0 ≤ c
  ∧ Js.includes (rule_byday series)
      (weekdayMap !!! Z.to_nat (getDay h c)) = true.

End Days.

(** The start [s] passes the tests on the window, dtstart and until_at. *)
Definition admitted (series : Series.t) (weekStart weekEnd s : Z) : Prop :=
  weekStart ≤ s ≤ weekEnd
  ∧ Series.dtstart series ≤ s
  ∧ match number_or_null (Series.until_at series) with
    | Some u => s ≤ u
    | None => True
    end.

(** [n] cursors, one day apart, from [c]. *)
Fixpoint days_from (c : Z) (n : nat) : list Z :=
  match n with
  | O => []
  | S n' => c :: days_from (c + dayMs) n'
  end.

(** What [count] lets through of [l] once [produced] instances exist. *)
Definition capped (count : option Z) (produced : Z) (l : list Instance.t)
  : list Instance.t :=
  match number_or_null count with
  | Some c => take (Z.to_nat (c - produced)) l
  | None => l
  end.

(** The row [s] without its [count]. *)
Definition without_count (s : Series.t) : Series.t :=
  Series.mk (Series.id s) (Series.client_id s) (Series.rrule s)
    (Series.dtstart s) (Series.duration_min s) (Series.until_at s) None.

Section Occurrences.

(** A zone of constant offset [tz]. *)
Variables (tz : Z) (upper : string → string).

Local Abbreviation h := (fixed_zone tz upper).

(** [t] is an occurrence of [series] in the window, in such a zone: the rule
    is weekly, [t] is in the window and not before dtstart, it has the hour
    and minute of dtstart and no seconds, its weekday is one of the rule's,
    the whole weeks from the day of dtstart are a multiple of the interval,
    and it is not past the until bound. *)
Definition occurs (series : Series.t) (weekStart weekEnd : Z) (t : Z)
  : Prop :=
  parseRRule upper (Series.rrule series) !! "FREQ" = Some "WEEKLY"%string
  ∧ weekStart ≤ t ≤ weekEnd
  ∧ Series.dtstart series ≤ t
  ∧ getHours h t = getHours h (Series.dtstart series)
  ∧ getMinutes h t = getMinutes h (Series.dtstart series)
  ∧ (t + tz) mod 60000 = 0
  ∧ Js.includes (rule_byday h series)
      (weekdayMap !!! Z.to_nat (getDay h t)) = true
  ∧ Js.rem_is_zero
      ((day_of tz t - day_of tz (Series.dtstart series)) / 7)
      (rule_interval h series) = true
  ∧ match number_or_null (Series.until_at series) with
    | Some u => t ≤ u
    | None => True
    end.

End Occurrences.

(** The instance the generator makes of the start time [t]. *)
Definition instance_at (series : Series.t) (t : Z) : Instance.t :=
  Instance.mk t t
    (t + (if decide (Series.duration_min series = 0) then 50
          else Series.duration_min series) * 60000).

(** ** Vocabulary for the export *)

Definition CR : ascii := "013"%char.
Definition LF : ascii := "010"%char.

(** The lines of a text whose lines end in CR LF: the pieces between the
    pairs CR LF, read from the left. *)
Fixpoint text_lines (text : string) : list string :=
  match text with
  | EmptyString => [EmptyString]
  | String c rest =>
      match rest with
      | String d rest' =>
          if Ascii.eqb c CR && Ascii.eqb d LF
          then EmptyString :: text_lines rest'
          else match text_lines rest with
               | piece :: pieces => String c piece :: pieces
               | [] => [String c EmptyString]
               end
      | EmptyString => [text]
      end
  end.

(** A string without CR and LF. *)
Definition one_line (s : string) : Prop :=
  Forall (fun c => c ≠ CR ∧ c ≠ LF) (String.list_ascii_of_string s).

(** No appointment id, client name or rule of the store holds a line
    break. *)
Record one_line_store (db : store) : Prop := {
  one_line_ids : ∀ a, a ∈ appointments db → one_line (Appointment.id a);
  one_line_names : ∀ c, c ∈ clients db → one_line (Client.name c);
  one_line_rules : ∀ s, s ∈ recurring_series db → one_line (Series.rrule s);
}.

Definition is_delimiter (line : string) : bool :=
  String.eqb line "BEGIN:VEVENT" || String.eqb line "END:VEVENT".


(** ** Vocabulary for the handlers that write *)

(** The store a handler leaves when it has run a statement. *)
Definition left_by (o : outcome) : option store :=
  match o with
  | Refused _ => None
  | Threw db => Some db
  | Wrote db _ => Some db
  end.

(** The tables as [initDb] creates them. *)
Definition empty_store : store :=
  {| clients := []; appointments := []; recurring_series := [];
     recurring_exceptions := [] |}.

(** The stores that requests to the three writing handlers lead to. *)
Inductive reachable : store → Prop :=
| reachable_empty : reachable empty_store
| reachable_post_client db id name status db' :
    reachable db →
    left_by (post_client db id name status) = Some db' →
    reachable db'
| reachable_post_appointment db seriesId id body db' :
    reachable db →
    left_by (post_appointment db seriesId id body) = Some db' →
    reachable db'
| reachable_patch_appointment db exId id body db' :
    reachable db →
    left_by (patch_appointment db exId id body) = Some db' →
    reachable db'.

(** What the schema declares and the handlers keep. *)
Record store_inv (db : store) : Prop := {
  inv_clients : NoDup (map Client.id (clients db));
  inv_appointments : NoDup (map Appointment.id (appointments db));
  inv_series : NoDup (map Series.id (recurring_series db));
  inv_exceptions : NoDup (map Exception.id (recurring_exceptions db));
  inv_appointment_client :
    ∀ a, a ∈ appointments db →
         Appointment.client_id a ∈ map Client.id (clients db);
  inv_appointment_series :
    ∀ a sid, a ∈ appointments db →
             Appointment.recurring_series_id a = Some sid →
             ∃ s, s ∈ recurring_series db ∧ Series.id s = sid
                  ∧ Series.client_id s = Appointment.client_id a;
  inv_series_appointment :
    NoDup (omap Appointment.recurring_series_id (appointments db));
  inv_exception_series :
    ∀ e, e ∈ recurring_exceptions db →
         Exception.recurring_series_id e ∈ map Series.id (recurring_series db)
         ∧ Exception.status e = "Moved"%string
         ∧ is_Some (Exception.new_start_at e)
         ∧ is_Some (Exception.new_end_at e);
}.

(** The key columns of an appointment row. *)
Definition appointment_keys (a : Appointment.t)
  : string * string * option string :=
  (Appointment.id a, Appointment.client_id a, Appointment.recurring_series_id a).

(** The requests that build the sample stores. *)
Definition weekly_request (rule : string) : NewAppointment.t :=
  NewAppointment.mk (Some "c1"%string) (Some 1759917600000) None
    (Some (Recurring.mk rule None None)).

Definition move_request : Patch.t :=
  Patch.mk (Some 1760018400000) (Some 1760021400000) None None.

Definition series_keys (s : Series.t) : string * string :=
  (Series.id s, Series.client_id s).

(** A row counted by the queries of [getClientStats]. *)
Definition completed_of (clientId : string) (a : Appointment.t) : Prop :=
  Appointment.client_id a = clientId
  ∧ Appointment.status a = "Completed"%string.

Definition upcoming_of (clientId : string) (now : Z) (a : Appointment.t)
  : Prop :=
  Appointment.client_id a = clientId
  ∧ Appointment.status a = "Scheduled"%string
  ∧ now < Appointment.start_at a.

Definition duration (a : Appointment.t) : Z :=
  Appointment.end_at a - Appointment.start_at a.

(** ** A zone with daylight saving *)

(** The offsets of America/New_York during 2025: UTC-5 until 2025-03-09
    07:00 UTC, UTC-4 until 2025-11-02 06:00 UTC, UTC-5 after. A local time
    is read at UTC-4 from 2025-03-09 03:00 until 2025-11-02 02:00: the hour
    skipped in March and the hour repeated in November are read at the
    offset before the change. *)
Definition new_york_2025 : host :=
  {| offset_at :=
       fun t => if (1741503600000 <=? t) && (t <? 1762063200000)
                then -14400000 else -18000000;
     offset_of_local :=
       fun l => if (1741489200000 <=? l) && (l <? 1762048800000)
                then -14400000 else -18000000;
     toUpperCase := Js.ascii_upper |}.

(** ** A store with a line break in a name *)

Definition forged_db : store :=
  {| clients :=
       [Client.mk "c1"
          ("Ann" +:+ CRLF +:+ "STATUS:CANCELLED" +:+ CRLF +:+ "END:VEVENT"
           +:+ CRLF +:+ "BEGIN:VEVENT" +:+ CRLF +:+ "UID:forged@local")];
     appointments :=
       [Appointment.mk "a1" "c1" 1759917600000 1759920600000 "Scheduled"
          None None];
     recurring_series := [];
     recurring_exceptions := [] |}.
(** ** The rule parser *)

Lemma split_without_separator sep s :
  sep ∉ String.list_ascii_of_string s → Js.split sep s = [s].
Proof.
  induction s as [|c s IH]; simpl; intros Hnot; [done|].
  apply not_elem_of_cons in Hnot as [Hc Hs].
  destruct (Ascii.eqb_spec c sep) as [->|_]; [done|].
  by rewrite (IH Hs).
Qed.

Lemma parse_piece_malformed upper map piece :
  malformed piece → parse_piece upper map piece = map.
Proof.
  intros H. unfold parse_piece.
  rewrite (split_without_separator _ _ H). by destruct piece.
Qed.

Lemma parse_piece_other_key upper map piece key :
  upper (hd EmptyString (Js.split "=" piece)) ≠ key →
  parse_piece upper map piece !! key = map !! key.
Proof.
  unfold parse_piece. intros Hk.
  destruct (Js.split "=" piece) as [|[|a k] [|[|b v] rest]]; try done.
  by rewrite lookup_insert_ne.
Qed.

Lemma parseRRule_key_absent upper rrule key :
  Forall (fun p => malformed p
                   ∨ upper (hd EmptyString (Js.split "=" p)) ≠ key)
    (Js.split ";" rrule) →
  parseRRule upper rrule !! key = None.
Proof.
  unfold parseRRule.
  assert (Hgen : ∀ l (m : gmap string string),
    Forall (fun p => malformed p
                     ∨ upper (hd EmptyString (Js.split "=" p)) ≠ key) l →
    foldl (parse_piece upper) m l !! key = m !! key).
  { induction l as [|p l IH]; intros m Hall; [done|].
    apply Forall_cons in Hall as [Hp Hl]. simpl. rewrite (IH _ Hl).
    destruct Hp as [Hp|Hp].
    - by rewrite parse_piece_malformed.
    - by apply parse_piece_other_key. }
  intros H. by rewrite (Hgen _ _ H).
Qed.

(** Every value the parser stores is a non-empty string. *)
Lemma parseRRule_value_nonempty upper rrule key :
  parseRRule upper rrule !! key ≠ Some EmptyString.
Proof.
  unfold parseRRule.
  assert (Hgen : ∀ l (m : gmap string string),
    m !! key ≠ Some EmptyString →
    foldl (parse_piece upper) m l !! key ≠ Some EmptyString).
  { induction l as [|p l IH]; intros m Hm; [done|].
    simpl. apply IH. unfold parse_piece.
    destruct (Js.split "=" p) as [|[|a k] [|[|b v] rest]]; try done.
    destruct (decide (upper (String a k) = key)) as [<-|Hne].
    - by rewrite lookup_insert_eq.
    - by rewrite lookup_insert_ne. }
  by apply Hgen.
Qed.

(** ** The instance generator on any host *)

Lemma genWeeklyInstances_not_weekly h series weekStart weekEnd :
  parseRRule (toUpperCase h) (Series.rrule series) !! "FREQ"
  ≠ Some "WEEKLY"%string →
  genWeeklyInstances h series weekStart weekEnd = [].
Proof.
  intros H. unfold genWeeklyInstances. by rewrite bool_decide_eq_false_2.
Qed.

Section Loop.

Context (h : host) (series : Series.t) (weekStart weekEnd : Z).
Context (byday : list string) (interval : Js.number).

Local Abbreviation body :=
  (loop_body h series weekStart weekEnd byday interval).
Local Abbreviation loop :=
  (while_loop h series weekStart weekEnd byday interval).
Local Abbreviation cand :=
  (candidate h series weekStart weekEnd byday interval).

Lemma body_cursor st : cursor (body st) = cursor st + dayMs.
Proof. unfold loop_body. repeat case_match; reflexivity. Qed.

Lemma iterations_next st :
  cursor st ≤ weekEnd →
  iterations (cursor st) weekEnd = S (iterations (cursor (body st)) weekEnd).
Proof.
  intros Hle. rewrite body_cursor. unfold iterations.
  assert ((weekEnd - (cursor st + dayMs)) / dayMs + 1
          = (weekEnd - cursor st) / dayMs) as -> by div_lia.
  assert (0 ≤ (weekEnd - cursor st) / dayMs) by div_lia. lia.
Qed.

(** With [iterations] turns of fuel the loop has left through its own test:
    the cursor is past [weekEnd]. *)
Lemma loop_exits fuel st :
  (iterations (cursor st) weekEnd ≤ fuel)%nat →
  weekEnd < cursor (loop fuel st).
Proof.
  revert st. induction fuel as [|fuel IH]; intros st Hfuel; simpl.
  - unfold iterations in Hfuel. div_lia.
  - destruct (Z.leb_spec (cursor st) weekEnd) as [Hle|Hgt]; [|lia].
    apply IH. rewrite (iterations_next _ Hle) in Hfuel. lia.
Qed.

(** More fuel than [iterations] changes nothing. *)
Lemma loop_fuel_irrelevant fuel st :
  (iterations (cursor st) weekEnd ≤ fuel)%nat →
  loop fuel st = loop (iterations (cursor st) weekEnd) st.
Proof.
  revert st. induction fuel as [|fuel IH]; intros st Hfuel; simpl.
  - by replace (iterations (cursor st) weekEnd) with 0%nat by lia.
  - destruct (Z.leb_spec (cursor st) weekEnd) as [Hle|Hgt].
    + rewrite (iterations_next _ Hle) in *. simpl.
      destruct (Z.leb_spec (cursor st) weekEnd); [|lia].
      apply IH. lia.
    + assert (iterations (cursor st) weekEnd = 0%nat) as ->; [|done].
      unfold iterations. div_lia.
Qed.

(** One turn of the loop, read off the candidate of its cursor. *)
Lemma body_candidate st :
  body st
  = match cand (cursor st) with
    | Some i =>
        if match number_or_null (Series.count series) with
           | Some c => c <=? produced st
           | None => false
           end
        then {| cursor := cursor st + dayMs; produced := produced st;
                generated := generated st |}
        else {| cursor := cursor st + dayMs; produced := produced st + 1;
                generated := generated st ++ [i] |}
    | None => {| cursor := cursor st + dayMs; produced := produced st;
                 generated := generated st |}
    end.
Proof.
  unfold loop_body, candidate.
  repeat match goal with
         | |- context [if ?b then _ else _] => destruct b eqn:?; simpl in *
         | |- context [match ?o with Some _ => _ | None => _ end] =>
             destruct o eqn:?; simpl in *
         end; try reflexivity; try congruence.
Qed.

Lemma while_loop_candidates fuel st :
  fuel = iterations (cursor st) weekEnd →
  generated (loop fuel st)
  = generated st
    ++ capped (Series.count series) (produced st)
         (omap cand (days_from (cursor st) fuel)).
Proof.
  revert st. induction fuel as [|fuel IH]; intros st Hfuel; simpl.
  { unfold capped. case_match; by rewrite ?take_nil, app_nil_r. }
  assert (Hle : cursor st ≤ weekEnd).
  { unfold iterations in Hfuel. div_lia. }
  destruct (Z.leb_spec (cursor st) weekEnd); [|lia].
  pose proof (iterations_next st Hle) as Hnext.
  assert (Hf : fuel = iterations (cursor (body st)) weekEnd) by lia.
  rewrite (IH _ Hf).
  rewrite body_cursor, body_candidate. unfold capped.
  destruct (cand (cursor st)) as [i|]; simpl; [|done].
  destruct (number_or_null (Series.count series)) as [c|]; simpl.
  - destruct (Z.leb_spec c (produced st)); simpl.
    + by replace (Z.to_nat (c - produced st)) with 0%nat by lia.
    + replace (Z.to_nat (c - produced st))
        with (S (Z.to_nat (c - (produced st + 1)))) by lia.
      by rewrite <- app_assoc.
  - by rewrite <- app_assoc.
Qed.

End Loop.

(** The result of the generator: the candidates of the days from the day of
    [weekStart] through [weekEnd], cut after [count] of them. *)
Lemma genWeeklyInstances_candidates h series weekStart weekEnd :
  genWeeklyInstances h series weekStart weekEnd
  = if bool_decide (parseRRule (toUpperCase h) (Series.rrule series) !! "FREQ"
                    = Some "WEEKLY"%string)
    then capped (Series.count series) 0
           (omap (candidate h series weekStart weekEnd (rule_byday h series)
                    (rule_interval h series))
              (days_from (setHours h weekStart 0 0)
                 (iterations (setHours h weekStart 0 0) weekEnd)))
    else [].
Proof.
  unfold genWeeklyInstances. case_bool_decide; [|done].
  by rewrite while_loop_candidates.
Qed.

(** The generator leaves its loop through the loop's own test. *)
Lemma genWeeklyInstances_loop_finishes h series weekStart weekEnd byday
    interval :
  weekEnd
  < cursor
      (while_loop h series weekStart weekEnd byday interval
         (iterations (setHours h weekStart 0 0) weekEnd)
         {| cursor := setHours h weekStart 0 0; produced := 0;
            generated := [] |}).
Proof. by apply loop_exits. Qed.

Lemma instance_at_or_num series s :
  Instance.mk s s
    (s + Js.or_num (Some (Series.duration_min series)) 50 * 60 * 1000)
  = instance_at series s.
Proof.
  unfold instance_at, Js.or_num. f_equal.
  destruct (Z.eqb_spec (Series.duration_min series) 0); case_decide; lia.
Qed.

Lemma elem_of_days_from c n x :
  x ∈ days_from c n ↔ ∃ k, (k < n)%nat ∧ x = c + Z.of_nat k * dayMs.
Proof.
  revert c. induction n as [|n IH]; intros c; simpl.
  - split; [by intros ?%elem_of_nil|intros (k&?&_); lia].
  - rewrite elem_of_cons, IH. split.
    + intros [->|(k&Hk&->)]; [exists 0%nat; split; lia|].
      exists (S k). split; lia.
    + intros ([|k]&Hk&->); [left; lia|].
      right. exists k. split; lia.
Qed.

(** The cursors of the loop are the instants [visited]. *)
Lemma elem_of_cursors h weekStart weekEnd c :
  c ∈ days_from (setHours h weekStart 0 0)
        (iterations (setHours h weekStart 0 0) weekEnd)
  ↔ visited h weekStart weekEnd c.
Proof.
  rewrite elem_of_days_from. unfold visited, iterations. split.
  - intros (k&Hk&->). exists (Z.of_nat k). split; [lia|]. split; [done|].
    div_lia.
  - intros (k&Hk&->&Hle). exists (Z.to_nat k). rewrite Z2Nat.id by done.
    split; [|done]. apply Nat2Z.inj_lt. rewrite Z2Nat.id by done.
    rewrite Z2Nat.id by div_lia. div_lia.
Qed.

(** What the tests of a turn say of the instance it makes. *)
Lemma candidate_Some h series weekStart weekEnd byday interval c i :
  candidate h series weekStart weekEnd byday interval c = Some i
  ↔ i = instance_at series (slot h series c)
    ∧ setHours h (Series.dtstart series) 0 0 ≤ c
    ∧ Js.rem_is_zero ((c - setHours h (Series.dtstart series) 0 0)
                      / (7 * dayMs)) interval = true
    ∧ Js.includes byday (weekdayMap !!! Z.to_nat (getDay h c)) = true
    ∧ admitted series weekStart weekEnd (slot h series c).
Proof.
  unfold candidate, admitted. rewrite instance_at_or_num. fold (slot h series c).
  set (s := slot h series c).
  set (w := (c - setHours h (Series.dtstart series) 0 0) / (7 * dayMs)).
  assert (Hw : 0 ≤ w ↔ setHours h (Series.dtstart series) 0 0 ≤ c).
  { unfold w. div_lia. }
  split.
  - case_match eqn:Hcond; [|done]. intros [= <-].
    repeat (apply andb_prop in Hcond as [Hcond ?]).
    split; [done|]. split; [apply Hw; lia|]. split; [done|]. split; [done|].
    split; [lia|]. split; [lia|].
    destruct (number_or_null (Series.until_at series)); [|done]. lia.
  - intros (->&Hc&Hrem&Hinc&Hwin&Hdt&Huntil).
    apply Hw in Hc. rewrite Hrem, Hinc.
    destruct (Z.leb_spec 0 w); [|lia].
    destruct (Z.leb_spec weekStart s), (Z.leb_spec s weekEnd),
      (Z.leb_spec (Series.dtstart series) s); try lia.
    simpl. destruct (number_or_null (Series.until_at series)) as [u|]; [|done].
    by destruct (Z.ltb_spec u s); [lia|].
Qed.

Lemma capped_sublist count produced l : capped count produced l `sublist_of` l.
Proof. unfold capped. case_match; [apply sublist_take|done]. Qed.

(** Every instance of the result is made of a visited day that passes the
    tests of its turn. *)
Lemma genWeeklyInstances_elem h series weekStart weekEnd i :
  i ∈ genWeeklyInstances h series weekStart weekEnd →
  parseRRule (toUpperCase h) (Series.rrule series) !! "FREQ"
  = Some "WEEKLY"%string
  ∧ ∃ c, visited h weekStart weekEnd c
         ∧ candidate h series weekStart weekEnd (rule_byday h series)
             (rule_interval h series) c = Some i.
Proof.
  rewrite genWeeklyInstances_candidates.
  case_bool_decide as Hfreq; [|by intros ?%elem_of_nil].
  intros Hi. split; [done|].
  pose proof (elem_of_sublist _ _ _ Hi (capped_sublist _ _ _)) as Hfull.
  apply list_elem_of_omap in Hfull as (c&Hc&Hcand).
  exists c. split; [by apply elem_of_cursors|done].
Qed.

(** Without a count, every such day gives its instance. *)
Lemma genWeeklyInstances_complete h series weekStart weekEnd c i :
  number_or_null (Series.count series) = None →
  parseRRule (toUpperCase h) (Series.rrule series) !! "FREQ"
  = Some "WEEKLY"%string →
  visited h weekStart weekEnd c →
  candidate h series weekStart weekEnd (rule_byday h series)
    (rule_interval h series) c = Some i →
  i ∈ genWeeklyInstances h series weekStart weekEnd.
Proof.
  intros Hcount Hfreq Hc Hcand. rewrite genWeeklyInstances_candidates.
  rewrite bool_decide_eq_true_2 by done. unfold capped. rewrite Hcount.
  apply list_elem_of_omap. exists c. split; [by apply elem_of_cursors|done].
Qed.

(** Every instance of the result passes the tests on the window, dtstart
    and until_at, and is given by its start. *)
Lemma genWeeklyInstances_guards h series weekStart weekEnd :
  Forall (fun i => admitted series weekStart weekEnd (Instance.start_at i)
                   ∧ Instance.original_instance_at i = Instance.start_at i
                   ∧ i = instance_at series (Instance.start_at i))
    (genWeeklyInstances h series weekStart weekEnd).
Proof.
  apply Forall_forall. intros i (_&c&_&Hcand)%genWeeklyInstances_elem.
  apply candidate_Some in Hcand as (->&_&_&_&Hadm). by simpl.
Qed.

Lemma genWeeklyInstances_inverted h series weekStart weekEnd :
  weekEnd < weekStart → genWeeklyInstances h series weekStart weekEnd = [].
Proof.
  intros Hinv.
  pose proof (genWeeklyInstances_guards h series weekStart weekEnd) as Hall.
  destruct (genWeeklyInstances h series weekStart weekEnd) as [|i l]; [done|].
  apply Forall_cons in Hall as [((?&_)&_) _]. lia.
Qed.

Lemma max1_at_most_one x : at_most_one x → Js.max1 x = Js.of_Z 1.
Proof.
  destruct x as [| | |n d]; simpl; try done.
  intros H. by destruct (Z.leb_spec n (Z.pos d)); [|lia].
Qed.

Lemma while_loop_with_rrule h series rule weekStart weekEnd byday interval
    fuel st :
  while_loop h (with_rrule series rule) weekStart weekEnd byday interval fuel st
  = while_loop h series weekStart weekEnd byday interval fuel st.
Proof.
  revert st. induction fuel as [|fuel IH]; intros st; simpl; [done|].
  case_match; [|done]. apply IH.
Qed.

(** ** The instance generator in a zone of constant offset *)

Ltac fixed_time :=
  unfold getDay, getHours, getMinutes, setHours, local in *;
  cbn [offset_at offset_of_local fixed_zone] in *.

Lemma day_of_mono tz a b : a ≤ b → day_of tz a ≤ day_of tz b.
Proof. unfold day_of. intros. div_lia. Qed.

Lemma day_of_next tz c : day_of tz (c + dayMs) = day_of tz c + 1.
Proof. unfold day_of. div_lia. Qed.

Lemma start_minutes_range h dt :
  0 ≤ getHours h dt * 60 + getMinutes h dt < 1440.
Proof. unfold getHours, getMinutes. div_lia. Qed.

Section Fixed.

Context (tz : Z) (upper : string → string).

Local Abbreviation h := (fixed_zone tz upper).

Lemma getDay_day_of t : getDay h t = (day_of tz t + 4) mod 7.
Proof. reflexivity. Qed.

Lemma setHours_minutes c sm :
  0 ≤ sm < 1440 →
  setHours h c (sm / 60) (sm mod 60) = dayMs * day_of tz c - tz + sm * 60000.
Proof. unfold day_of. fixed_time. intros. div_lia. Qed.

Lemma setHours_same_day c sm :
  0 ≤ sm < 1440 →
  day_of tz (setHours h c (sm / 60) (sm mod 60)) = day_of tz c.
Proof.
  intros H. rewrite (setHours_minutes _ _ H). unfold day_of. div_lia.
Qed.

Lemma setHours_midnight t : setHours h t 0 0 = dayMs * day_of tz t - tz.
Proof. unfold day_of. fixed_time. div_lia. Qed.

Lemma slot_same_day series c :
  day_of tz (slot h series c) = day_of tz c.
Proof. apply setHours_same_day, start_minutes_range. Qed.

Context (series : Series.t) (weekStart weekEnd : Z).
Context (byday : list string) (interval : Js.number).

Local Abbreviation body :=
  (loop_body h series weekStart weekEnd byday interval).
Local Abbreviation loop :=
  (while_loop h series weekStart weekEnd byday interval).
Local Abbreviation inv := (loop_inv tz series weekStart weekEnd).

(** One turn pushes nothing, or one instance on the cursor's day. *)
Lemma body_generated st :
  generated (body st) = generated st
  ∨ ∃ s e,
      generated (body st) = generated st ++ [Instance.mk s s e]
      ∧ day_of tz s = day_of tz (cursor st)
      ∧ weekStart ≤ s ≤ weekEnd ∧ Series.dtstart series ≤ s.
Proof.
  pose proof (start_minutes_range h (Series.dtstart series)) as Hsm.
  unfold loop_body. repeat case_match; simpl; auto.
  all: right; eexists _, _; (split; [reflexivity|]).
  all: split; [by apply setHours_same_day|].
  all: repeat match goal with
         | H : _ && _ = true |- _ => apply andb_prop in H as [? ?]
         end; lia.
Qed.

Lemma body_inv st : inv st → inv (body st).
Proof.
  intros [Hall Hsorted].
  assert (Hkeep : Forall (pushed_ok tz series weekStart weekEnd (body st))
                    (generated st)).
  { eapply Forall_impl; [exact Hall|]. intros i (?&?&?&?).
    unfold pushed_ok. rewrite body_cursor, day_of_next. lia. }
  unfold loop_inv.
  destruct (body_generated st) as [->|(s&e&->&Hday&Hwin&Hdt)]; [done|].
  split.
  - apply Forall_app. split; [exact Hkeep|].
    apply Forall_singleton. unfold pushed_ok.
    rewrite body_cursor, day_of_next. simpl. lia.
  - apply StronglySorted_app_2; [|exact Hsorted|repeat constructor].
    intros a b Ha ->%list_elem_of_singleton. simpl.
    rewrite Forall_forall in Hall. destruct (Hall a Ha) as (_&_&_&Hlt).
    destruct (Z.lt_ge_cases (Instance.start_at a) s) as [|Hge]; [done|].
    apply (day_of_mono tz) in Hge. lia.
Qed.

Lemma loop_inv_preserved fuel st : inv st → inv (loop fuel st).
Proof.
  revert st. induction fuel as [|fuel IH]; intros st Hinv; simpl; [done|].
  case_match; [|done]. by apply IH, body_inv.
Qed.

End Fixed.

(** In a zone of constant offset the start times increase strictly. *)
Lemma genWeeklyInstances_inv tz upper series weekStart weekEnd :
  Forall (fun i => weekStart ≤ Instance.start_at i ≤ weekEnd
                   ∧ Series.dtstart series ≤ Instance.start_at i
                   ∧ Instance.original_instance_at i = Instance.start_at i)
    (genWeeklyInstances (fixed_zone tz upper) series weekStart weekEnd)
  ∧ StronglySorted (fun a b => Instance.start_at a < Instance.start_at b)
      (genWeeklyInstances (fixed_zone tz upper) series weekStart weekEnd).
Proof.
  unfold genWeeklyInstances. case_bool_decide; [|split; constructor].
  match goal with |- context [while_loop _ _ _ _ ?bd ?iv ?f ?st] =>
    destruct (loop_inv_preserved tz upper series weekStart weekEnd bd iv f st)
      as [Hall Hsorted] end.
  { split; constructor. }
  split; [|exact Hsorted].
  eapply Forall_impl; [exact Hall|]. intros i (?&?&?&?). auto.
Qed.

Lemma genWeeklyInstances_origins_distinct tz upper series weekStart weekEnd :
  NoDup (map Instance.original_instance_at
           (genWeeklyInstances (fixed_zone tz upper) series weekStart weekEnd)).
Proof.
  destruct (genWeeklyInstances_inv tz upper series weekStart weekEnd)
    as [Hall Hs].
  induction Hs as [|a l Hs IH Hlt]; simpl; [constructor|].
  apply Forall_cons in Hall as [(_&_&Ha) Hall].
  constructor; [|by apply IH].
  intros (b&Hb&Hin)%list_elem_of_fmap.
  rewrite Forall_forall in Hlt, Hall.
  specialize (Hlt b Hin). destruct (Hall b Hin) as (_&_&Hb'). lia.
Qed.

(** ** Sorting *)

Lemma insert_event_perm x l : insert_event x l ≡ₚ x :: l.
Proof.
  induction l as [|y l IH]; simpl; [done|].
  case_match; [done|]. rewrite IH. apply Permutation_swap.
Qed.

Lemma sort_events_perm l : sort_events l ≡ₚ l.
Proof.
  induction l as [|x l IH]; simpl; [done|].
  by rewrite insert_event_perm, IH.
Qed.

Lemma insert_event_sorted x l :
  sorted_by_startAt l → sorted_by_startAt (insert_event x l).
Proof.
  unfold sorted_by_startAt.
  induction 1 as [|y l Hs IH Hall]; simpl; [repeat constructor|].
  destruct (Z.leb_spec (Event.startAt x) (Event.startAt y)) as [Hle|Hgt].
  - constructor; [by constructor|]. constructor; [done|].
    eapply Forall_impl; [exact Hall|]. simpl. intros. lia.
  - constructor; [done|].
    rewrite insert_event_perm. constructor; [lia|done].
Qed.

Lemma sort_events_sorted l : sorted_by_startAt (sort_events l).
Proof.
  induction l as [|x l IH]; simpl; [constructor|].
  by apply insert_event_sorted.
Qed.

(** Inserting keeps [x] in front of the events of its own start time. *)
Lemma insert_event_starting_at t x l :
  starting_at t (insert_event x l) = starting_at t (x :: l).
Proof.
  unfold starting_at. induction l as [|y l IH]; simpl; [done|].
  destruct (Z.leb_spec (Event.startAt x) (Event.startAt y)) as [Hle|Hgt];
    [done|].
  rewrite (filter_cons _ y (insert_event x l)), IH, !filter_cons.
  repeat case_decide; try done; lia.
Qed.

Lemma sort_events_stable t l :
  starting_at t (sort_events l) = starting_at t l.
Proof.
  induction l as [|x l IH]; simpl; [done|].
  rewrite insert_event_starting_at. unfold starting_at in *.
  by rewrite !filter_cons, IH.
Qed.

Lemma starting_at_flat_map {A} t (f : A → list Event.t) l :
  starting_at t (flat_map f l) = flat_map (fun x => starting_at t (f x)) l.
Proof.
  unfold starting_at. induction l as [|x l IH]; simpl; [done|].
  by rewrite filter_app, IH.
Qed.

(** ** The exception overlay *)

Lemma exception_map_lookup exceptions at_ ex :
  exception_map exceptions !! at_ = Some ex →
  ex ∈ exceptions ∧ Exception.original_instance_at ex = at_.
Proof.
  unfold exception_map.
  assert (Hgen : ∀ l (m : gmap Z Exception.t),
    foldl (fun m e => <[Exception.original_instance_at e := e]> m) m l
      !! at_ = Some ex →
    (ex ∈ l ∧ Exception.original_instance_at ex = at_) ∨ m !! at_ = Some ex).
  { induction l as [|e l IH]; intros m H; simpl in *; [by right|].
    destruct (IH _ H) as [[Hin Hk]|Hm].
    - left. split; [by right|done].
    - destruct (decide (Exception.original_instance_at e = at_)) as [Heq|Hne].
      + rewrite <- Heq, lookup_insert_eq in Hm. injection Hm as ->.
        left. split; [by left|done].
      + rewrite lookup_insert_ne in Hm by done. by right. }
  intros H. destruct (Hgen _ _ H) as [?|Hm]; [done|].
  by rewrite lookup_empty in Hm.
Qed.

Lemma exception_map_lookup_None exceptions at_ :
  exception_map exceptions !! at_ = None ↔
  ∀ ex, ex ∈ exceptions → Exception.original_instance_at ex ≠ at_.
Proof.
  unfold exception_map.
  assert (Hgen : ∀ l (m : gmap Z Exception.t),
    foldl (fun m e => <[Exception.original_instance_at e := e]> m) m l
      !! at_ = None ↔
    (∀ ex, ex ∈ l → Exception.original_instance_at ex ≠ at_)
    ∧ m !! at_ = None).
  { induction l as [|e l IH]; intros m; simpl.
    - split; [intros ?; split; [by intros ? ?%elem_of_nil|done]|by intros [_ ?]].
    - rewrite IH. split.
      + intros [Hl Hm].
        destruct (decide (Exception.original_instance_at e = at_)) as [<-|Hne].
        * by rewrite lookup_insert_eq in Hm.
        * rewrite lookup_insert_ne in Hm by done. split; [|done].
          intros ex [->|?]%elem_of_cons; auto.
      + intros [Hl Hm]. split; [intros ex ?; apply Hl; by right|].
        rewrite lookup_insert_ne; [done|]. apply Hl. by left. }
  rewrite Hgen, lookup_empty. split; [by intros [? _]|by intros ?].
Qed.

(** An exception that is the only one of its key is the one the overlay
    looks up. *)
Lemma exception_map_lookup_unique exceptions ex :
  ex ∈ exceptions →
  (∀ ex', ex' ∈ exceptions →
          Exception.original_instance_at ex'
          = Exception.original_instance_at ex → ex' = ex) →
  exception_map exceptions !! Exception.original_instance_at ex = Some ex.
Proof.
  intros Hin Huniq.
  destruct (exception_map exceptions !! Exception.original_instance_at ex)
    as [ex'|] eqn:Hlook.
  - apply exception_map_lookup in Hlook as [Hin' Hk]. f_equal. by apply Huniq.
  - rewrite exception_map_lookup_None in Hlook. by destruct (Hlook ex Hin).
Qed.

Lemma overlay_Some series client mapEx item ev :
  overlay series client mapEx item = Some ev →
  Event.id ev = virtual_id series (Instance.original_instance_at item)
  ∧ Event.source ev = "recurring"%string
  ∧ Event.status ev = "Scheduled"%string
  ∧ Event.recurringSeriesId ev = Some (Series.id series)
  ∧ Event.originalInstanceAt ev = Some (Instance.original_instance_at item).
Proof.
  unfold overlay. case_bool_decide; [done|]. intros [= <-]. done.
Qed.

Lemma or_num_moved_time new_at generated_at :
  Js.or_num new_at generated_at = moved_time new_at generated_at.
Proof.
  unfold Js.or_num, moved_time. destruct new_at as [n|]; [|done].
  case_decide; [by subst|]. by destruct (Z.eqb_spec n 0).
Qed.

Lemma filter_none {A} (P : A → Prop) `{∀ x, Decision (P x)} (l : list A) :
  Forall (fun x => ¬ P x) l → filter P l = [].
Proof.
  induction 1 as [|x l Hx Hl IH]; [done|]. by rewrite filter_cons_False.
Qed.


(** The events of [omap f l] under one key, when the keys of [l] are
    distinct. *)
Lemma filter_omap_key {A B K} `{EqDecision K}
    (f : A → option B) (ka : A → K) (kb : B → K) (l : list A) (x : A) :
  (∀ a b, f a = Some b → kb b = ka a) →
  NoDup (map ka l) → x ∈ l →
  filter (fun b => kb b = ka x) (omap f l) = option_list (f x).
Proof.
  intros Hkey. induction l as [|a l IH]; simpl; intros Hnd Hin.
  { by apply elem_of_nil in Hin. }
  apply NoDup_cons in Hnd as [Hnotin Hnd].
  assert (Hrest : ∀ y, y ∈ l → ka y ≠ ka a).
  { intros y Hy Heq. apply Hnotin. rewrite <- Heq. by apply list_elem_of_fmap_2. }
  assert (Hnone : filter (fun b => kb b = ka a) (omap f l) = []).
  { apply filter_none, Forall_forall.
    intros b (y&Hy&Hfy)%list_elem_of_omap. rewrite (Hkey _ _ Hfy). by apply Hrest. }
  apply elem_of_cons in Hin as [->|Hin].
  - destruct (f a) as [b|] eqn:Hfa; simpl; [|done].
    rewrite filter_cons_True by by apply Hkey. f_equal. exact Hnone.
  - destruct (f a) as [b|] eqn:Hfa; simpl; [|by apply IH].
    rewrite filter_cons_False; [by apply IH|].
    rewrite (Hkey _ _ Hfa). intros Heq. by apply (Hrest x).
Qed.

Lemma NoDup_omap_key {A B K K'} (f : A → option B) (ka : A → K)
    (kb : B → K') (g : K → K') (l : list A) :
  Inj eq eq g →
  (∀ a b, f a = Some b → kb b = g (ka a)) →
  NoDup (map ka l) → NoDup (map kb (omap f l)).
Proof.
  intros Hinj Hkey. induction l as [|a l IH]; simpl; intros Hnd; [constructor|].
  apply NoDup_cons in Hnd as [Hnotin Hnd].
  destruct (f a) as [b|] eqn:Hfa; [|by apply IH].
  simpl. constructor; [|by apply IH].
  intros (b'&Hb'&(a'&Ha'&Hfa')%list_elem_of_omap)%list_elem_of_fmap.
  rewrite (Hkey _ _ Hfa), (Hkey _ _ Hfa') in Hb'. apply Hinj in Hb'.
  apply Hnotin. rewrite Hb'. by apply list_elem_of_fmap_2.
Qed.


(** ** The week query *)





Lemma schedule_week_Ok h db weekStart weekEnd body :
  schedule_week h db weekStart weekEnd = Ok body →
  ∃ ws we, weekStart = Some ws ∧ weekEnd = Some we ∧ ws ≠ 0 ∧ we ≠ 0
           ∧ body = sort_events (eventList h db ws we).
Proof.
  unfold schedule_week.
  destruct weekStart as [ws|], weekEnd as [we|]; try done.
  destruct (Z.eqb_spec ws 0), (Z.eqb_spec we 0); simpl; try done.
  intros [= <-]. by exists ws, we.
Qed.

(** The handler answers 400 exactly when a bound is NaN or 0. *)
Lemma schedule_week_BadRequest h db weekStart weekEnd :
  (∃ error, schedule_week h db weekStart weekEnd = BadRequest error) ↔
  weekStart = None ∨ weekStart = Some 0 ∨ weekEnd = None ∨ weekEnd = Some 0.
Proof.
  unfold schedule_week.
  destruct weekStart as [ws|], weekEnd as [we|];
    [|split; [intros _; auto 6|intros _; eauto]..].
  destruct (Z.eqb_spec ws 0) as [->|], (Z.eqb_spec we 0) as [->|]; simpl;
    [split; [intros _; auto 6|intros _; eauto]..|].
  split; [by intros [? ?]|]. intros [?|[?|[?|?]]]; congruence.
Qed.

Lemma eventList_inverted h db weekStart weekEnd :
  weekEnd < weekStart → eventList h db weekStart weekEnd = [].
Proof.
  intros Hinv. unfold eventList, singles.
  rewrite filter_none; [|apply Forall_forall; intros; lia].
  simpl. induction (seriesRows db weekStart weekEnd) as [|s l IH]; [done|].
  simpl. rewrite IH, app_nil_r. unfold series_events.
  by rewrite genWeeklyInstances_inverted.
Qed.

(** ** The ICS export *)

Lemma filter_unique_key {A K} `{EqDecision K} (f : A → K) (l : list A) x :
  NoDup (map f l) → x ∈ l → filter (fun y => f y = f x) l = [x].
Proof.
  induction l as [|a l IH]; simpl; intros Hnd Hin.
  { by apply elem_of_nil in Hin. }
  apply NoDup_cons in Hnd as [Hnotin Hnd].
  apply elem_of_cons in Hin as [->|Hin].
  - rewrite filter_cons_True by done. f_equal.
    apply filter_none, Forall_forall. intros y Hy Heq.
    apply Hnotin. rewrite <- Heq. by apply list_elem_of_fmap_2.
  - rewrite filter_cons_False; [by apply IH|].
    intros Heq. apply Hnotin. rewrite Heq. by apply list_elem_of_fmap_2.
Qed.

Lemma map_fst_filter {A B} (P : A → Prop) `{∀ x, Decision (P x)}
    (l : list (A * B)) :
  map fst (filter (fun row => P row.1) l) = filter P (map fst l).
Proof.
  induction l as [|[a b] l IH]; simpl; [done|].
  rewrite !filter_cons. simpl. case_decide; simpl; by rewrite IH.
Qed.

(** Under the schema's keys the join yields every appointment once. *)
Lemma appointments_join_clients_rows db :
  store_keys db → map fst (appointments_join_clients db) = appointments db.
Proof.
  intros [Huniq Hexists]. unfold appointments_join_clients.
  induction (appointments db) as [|a l IH]; simpl; [done|].
  rewrite map_app, IH by (intros; apply Hexists; by right). clear IH.
  destruct (Hexists a) as (c&Hc&Hid); [by left|].
  rewrite <- Hid, (filter_unique_key Client.id _ c) by done. done.
Qed.

Lemma ics_events_rows db :
  store_keys db →
  map fst (ics_events db) = filter not_canceled (appointments db).
Proof.
  intros Hkeys. unfold ics_events.
  rewrite <- (appointments_join_clients_rows db Hkeys).
  unfold not_canceled.
  exact (map_fst_filter (fun a => Appointment.status a ≠ "Canceled"%string)
           (appointments_join_clients db)).
Qed.

Lemma filter_concat_imap {A B} (P : B → Prop) `{∀ x, Decision (P x)}
    (f : nat → A → list B) (l : list A) :
  filter P (concat (imap f l)) = concat (imap (fun i x => filter P (f i x)) l).
Proof.
  revert f. induction l as [|x l IH]; intros f; simpl; [done|].
  by rewrite filter_app, IH.
Qed.

Lemma concat_imap_singleton {A B} (g : A → B) (l : list A) :
  concat (imap (fun _ x => [g x]) l) = map g l.
Proof.
  induction l as [|x l IH]; simpl; [done|]. f_equal. exact IH.
Qed.

Lemma vevent_uid_lines db stamp row :
  filter is_uid_line (vevent db stamp row) = [uid_line row.1].
Proof.
  unfold vevent, rrule_line. repeat case_match; reflexivity.
Qed.

Lemma vevent_begin_lines db stamp row :
  filter is_begin_vevent (vevent db stamp row) = ["BEGIN:VEVENT"%string].
Proof.
  unfold vevent, rrule_line. repeat case_match; reflexivity.
Qed.

Lemma vevent_rrule_lines db stamp row :
  filter is_rrule_line (vevent db stamp row) = rrule_line db row.1.
Proof.
  unfold vevent, rrule_line. repeat case_match; reflexivity.
Qed.

Lemma ics_uid_lines db now :
  filter is_uid_line (ics_lines db now)
  = map uid_line (map fst (ics_events db)).
Proof.
  unfold ics_lines. rewrite !filter_app, filter_concat_imap. simpl.
  rewrite app_nil_r, map_map, <- concat_imap_singleton.
  f_equal. apply imap_ext. intros i row _. apply vevent_uid_lines.
Qed.

Lemma ics_begin_lines db now :
  filter is_begin_vevent (ics_lines db now)
  = map (fun _ => "BEGIN:VEVENT"%string) (ics_events db).
Proof.
  unfold ics_lines. rewrite !filter_app, filter_concat_imap. simpl.
  rewrite app_nil_r, <- concat_imap_singleton.
  f_equal. apply imap_ext. intros i row _. apply vevent_begin_lines.
Qed.
(** ** Independence of the time zone, among the zones of constant offset *)

Section Zones.

Context (tz : Z) (upper : string → string).

Local Abbreviation here := (fixed_zone tz upper).
Local Abbreviation greenwich := (fixed_zone 0 upper).

Lemma getDay_zone t : getDay here (t - tz) = getDay greenwich t.
Proof. fixed_time. by replace (t - tz + tz) with (t + 0) by lia. Qed.

Lemma getHours_zone t : getHours here (t - tz) = getHours greenwich t.
Proof. fixed_time. by replace (t - tz + tz) with (t + 0) by lia. Qed.

Lemma getMinutes_zone t : getMinutes here (t - tz) = getMinutes greenwich t.
Proof. fixed_time. by replace (t - tz + tz) with (t + 0) by lia. Qed.

Lemma setHours_zone t hours m :
  setHours here (t - tz) hours m = setHours greenwich t hours m - tz.
Proof. fixed_time. replace (t - tz + tz) with (t + 0) by lia. lia. Qed.

Lemma leb_zone a b : (a - tz <=? b - tz) = (a <=? b).
Proof. destruct (Z.leb_spec a b), (Z.leb_spec (a - tz) (b - tz)); lia. Qed.

Lemma loop_body_zone series weekStart weekEnd byday interval st :
  Series.until_at series = None →
  loop_body here (zone_series tz series) (weekStart - tz) (weekEnd - tz)
    byday interval (zone_state tz st)
  = zone_state tz
      (loop_body greenwich series weekStart weekEnd byday interval st).
Proof.
  intros Huntil. unfold loop_body. simpl. rewrite Huntil. simpl.
  rewrite getHours_zone, getMinutes_zone, getDay_zone, !setHours_zone.
  rewrite !leb_zone.
  replace (cursor st - tz
           - (setHours greenwich (Series.dtstart series) 0 0 - tz))
    with (cursor st - setHours greenwich (Series.dtstart series) 0 0) by lia.
  repeat case_match; unfold zone_state; simpl; f_equal; try lia.
  all: rewrite map_app; simpl; do 2 f_equal.
  all: unfold zone_instance; simpl; f_equal; lia.
Qed.

Lemma while_loop_zone series weekStart weekEnd byday interval fuel st :
  Series.until_at series = None →
  while_loop here (zone_series tz series) (weekStart - tz) (weekEnd - tz)
    byday interval fuel (zone_state tz st)
  = zone_state tz
      (while_loop greenwich series weekStart weekEnd byday interval fuel st).
Proof.
  intros Huntil. revert st.
  induction fuel as [|fuel IH]; intros st; simpl; [done|].
  rewrite leb_zone. case_match; [|done].
  by rewrite loop_body_zone, IH.
Qed.

(** In the zone of offset [tz] the generator yields, for a series and a
    window given by their wall-clock times, the instances it yields in UTC,
    at the same wall-clock times. *)
Lemma genWeeklyInstances_zone series weekStart weekEnd :
  Series.until_at series = None →
  genWeeklyInstances here (zone_series tz series) (weekStart - tz)
    (weekEnd - tz)
  = map (zone_instance tz)
      (genWeeklyInstances greenwich series weekStart weekEnd).
Proof.
  intros Huntil. unfold genWeeklyInstances. simpl.
  case_bool_decide; [|done].
  rewrite getDay_zone, setHours_zone.
  assert (iterations (setHours greenwich weekStart 0 0 - tz) (weekEnd - tz)
          = iterations (setHours greenwich weekStart 0 0) weekEnd) as ->.
  { unfold iterations. do 3 f_equal. lia. }
  pose proof (while_loop_zone series weekStart weekEnd) as Hloop.
  unfold zone_state at 1 in Hloop. simpl in Hloop.
  specialize (Hloop
    (Js.split ","
       (Js.or_str (parseRRule upper (Series.rrule series) !! "BYDAY")
          (weekdayMap !!! Z.to_nat (getDay greenwich (Series.dtstart series)))))
    (Js.max1
       match parseRRule upper (Series.rrule series) !! "INTERVAL" with
       | Some (String _ _ as v) => Js.Number v
       | _ => Js.of_Z 1
       end)
    (iterations (setHours greenwich weekStart 0 0) weekEnd)
    {| cursor := setHours greenwich weekStart 0 0; produced := 0;
       generated := [] |}
    Huntil).
  simpl in Hloop. by rewrite Hloop.
Qed.

End Zones.

Lemma wednesday_utc_instances sid cid :
  genWeeklyInstances utc
    (Series.mk sid cid "FREQ=WEEKLY;BYDAY=WE" 1759917600000 50 None None)
    1760313600000 1760918340000
  = [Instance.mk 1760522400000 1760522400000 1760525400000].
Proof. vm_compute. reflexivity. Qed.

(** ** Checks of the embedding on concrete inputs *)

Example parseRRule_sample :
  let rule := parseRRule Js.ascii_upper "freq=WEEKLY;BYDAY=WE;x;=3;K=;interval=2=5" in
  rule !! "FREQ" = Some "WEEKLY"%string
  ∧ rule !! "BYDAY" = Some "WE"%string
  ∧ rule !! "INTERVAL" = Some "2"%string
  ∧ size rule = 3%nat.
Proof. vm_compute. repeat split. Qed.

Example Number_samples :
  map Js.Number ["0"; " 12 "; "-3"; "0.5"; "1e3"; "0x1A"; "2x"; ""; "-Infinity";
                 "9007199254740993"; "1e400"]%string
  = [Js.Fin 0 1; Js.Fin 12 1; Js.Fin (-3) 1; Js.Fin 1 2; Js.Fin 1000 1;
     Js.Fin 26 1; Js.NaN; Js.Fin 0 1; Js.NegInf; Js.Fin 9007199254740992 1;
     Js.PosInf].
Proof. vm_compute. reflexivity. Qed.

(** A no-break space, U+00A0, is white space to [Number]. *)
Example Number_no_break_space :
  Js.Number (String (ascii_of_nat 194) (String (ascii_of_nat 160) "2"))
  = Js.Fin 2 1.
Proof. vm_compute. reflexivity. Qed.

Example formatIcsDate_sample :
  map formatIcsDate [1760522400000; 0; -1; 951782400000]
  = ["20251015T100000Z"; "19700101T000000Z"; "19691231T235959Z";
     "20000229T000000Z"]%string.
Proof. vm_compute. reflexivity. Qed.

Example local_time_sample :
  local_time 0 2025 10 15 10 0 = 1760522400000
  ∧ local_time 28800000 2025 10 15 10 0 = 1760493600000
  ∧ civil_of_days (days_of_civil 2024 2 29) = (2024, 2, 29).
Proof. repeat split. Qed.

(** Every second week: with INTERVAL=2 the Wednesday series skips
    2025-10-15 and meets again on 2025-10-22. *)
Example interval_two_sample :
  map Instance.start_at
    (genWeeklyInstances utc (wednesday_series "FREQ=WEEKLY;BYDAY=WE;INTERVAL=2")
       1759708800000 1761523140000)
  = [1759917600000; 1761127200000].
Proof. vm_compute. reflexivity. Qed.

(** The [count] of a series restarts with each call: the window of the
    third week still yields an occurrence when [count] is 1. *)
Example count_restarts_sample :
  map Instance.start_at
    (genWeeklyInstances utc
       (Series.mk "s1" "c1" "FREQ=WEEKLY" 1759917600000 50 None (Some 1))
       1759708800000 1761523140000)
  = [1759917600000]
  ∧ map Instance.start_at
      (genWeeklyInstances utc
         (Series.mk "s1" "c1" "FREQ=WEEKLY" 1759917600000 50 None (Some 1))
         1760918400000 1761523140000)
    = [1761127200000].
Proof. split; vm_compute; reflexivity. Qed.
(** ** The generator as a function of the days of the window *)

Lemma StronglySorted_sublist {A} (R : relation A) (l k : list A) :
  k `sublist_of` l → StronglySorted R l → StronglySorted R k.
Proof.
  induction 1 as [|x k l Hsub IH|x k l Hsub IH]; intros Hs; [done|..].
  - apply StronglySorted_inv in Hs as [Hs Hall]. constructor; [by apply IH|].
    rewrite Forall_forall in *. intros y Hy. apply Hall.
    by apply (elem_of_sublist k l).
  - apply StronglySorted_inv in Hs as [Hs _]. by apply IH.
Qed.

Lemma candidate_without_count h series weekStart weekEnd byday interval c :
  candidate h (without_count series) weekStart weekEnd byday interval c
  = candidate h series weekStart weekEnd byday interval c.
Proof. reflexivity. Qed.

Lemma genWeeklyInstances_capped h series weekStart weekEnd :
  genWeeklyInstances h series weekStart weekEnd
  = capped (Series.count series) 0
      (genWeeklyInstances h (without_count series) weekStart weekEnd).
Proof.
  rewrite !genWeeklyInstances_candidates. simpl.
  case_bool_decide; [|unfold capped; case_match; by rewrite ?take_nil].
  unfold capped at 2. simpl. f_equal.
Qed.

Lemma genWeeklyInstances_sublist h series weekStart weekEnd :
  genWeeklyInstances h series weekStart weekEnd
  `sublist_of` genWeeklyInstances h (without_count series) weekStart weekEnd.
Proof.
  rewrite (genWeeklyInstances_capped h series). apply capped_sublist.
Qed.

Lemma strictly_ascending_NoDup (l : list Instance.t) :
  StronglySorted (fun a b => Instance.start_at a < Instance.start_at b) l →
  NoDup l.
Proof.
  induction 1 as [|a l Hs IH Hall]; constructor; [|done].
  intros Hin. rewrite Forall_forall in Hall. specialize (Hall a Hin). lia.
Qed.

(** Two strictly ascending lists of the same instances are one list. *)
Lemma strictly_ascending_unique (l k : list Instance.t) :
  StronglySorted (fun a b => Instance.start_at a < Instance.start_at b) l →
  StronglySorted (fun a b => Instance.start_at a < Instance.start_at b) k →
  (∀ i, i ∈ l ↔ i ∈ k) → l = k.
Proof.
  intros Hl Hk Hsame.
  apply (StronglySorted_unique_strong
           (fun a b => Instance.start_at a < Instance.start_at b));
    [intros; lia|done|done|].
  apply list.NoDup_Permutation; [by apply strictly_ascending_NoDup..|done].
Qed.

Lemma mod_day_split x :
  x mod dayMs
  = x mod dayMs / 3600000 * 3600000 + x mod 3600000 / 60000 * 60000
    + x mod 60000.
Proof.
  assert (H1 : (x mod dayMs) mod 3600000 = x mod 3600000).
  { apply Z.mod_mod_divide. by exists 24. }
  assert (H2 : (x mod 3600000) mod 60000 = x mod 60000).
  { apply Z.mod_mod_divide. by exists 60. }
  pose proof (Z_div_mod_eq_full (x mod dayMs) 3600000) as E2.
  pose proof (Z_div_mod_eq_full (x mod 3600000) 60000) as E3.
  lia.
Qed.

Lemma getDay_range h t : 0 ≤ getDay h t < 7.
Proof. unfold getDay. div_lia. Qed.

Lemma weekday_split (n : nat) :
  (n < 7)%nat → Js.split "," (weekdayMap !!! n) = [weekdayMap !!! n].
Proof.
  intros Hn. do 7 (destruct n as [|n]; [reflexivity|]). lia.
Qed.

Lemma weekday_includes (a b : nat) :
  (a < 7)%nat → (b < 7)%nat →
  Js.includes [weekdayMap !!! a] (weekdayMap !!! b) = true ↔ a = b.
Proof.
  intros Ha Hb.
  do 7 (destruct a as [|a];
        [do 7 (destruct b as [|b]; [by vm_compute|]); lia|]).
  lia.
Qed.

(** ** The occurrences of a series in a zone of constant offset *)

Section FixedOccurs.

Context (tz : Z) (upper : string → string).

Local Abbreviation h := (fixed_zone tz upper).

(** The start the loop gives to the day of [c]: that day, at the hour and
    minute of [dt]. *)
Lemma slot_time_of_day dt c :
  let sm := getHours h dt * 60 + getMinutes h dt in
  let s := setHours h c (sm / 60) (sm mod 60) in
  day_of tz s = day_of tz c
  ∧ getHours h s = getHours h dt
  ∧ getMinutes h s = getMinutes h dt
  ∧ (s + tz) mod 60000 = 0.
Proof.
  intros sm s.
  pose proof (start_minutes_range h dt) as Hsm. fold sm in Hsm.
  assert (Hs : s + tz = dayMs * day_of tz c + sm * 60000).
  { unfold s. rewrite setHours_minutes by done. lia. }
  split; [by apply setHours_same_day|].
  assert (Hh : 0 ≤ getHours h dt < 24) by (unfold getHours; div_lia).
  assert (Hm : 0 ≤ getMinutes h dt < 60) by (unfold getMinutes; div_lia).
  change (getHours h s) with ((s + tz) mod dayMs / 3600000).
  change (getMinutes h s) with ((s + tz) mod 3600000 / 60000).
  rewrite Hs. unfold sm. clear Hs Hsm s sm.
  remember (getHours h dt) as H. remember (getMinutes h dt) as M.
  remember (day_of tz c) as d. clear HeqH HeqM Heqd. div_lia.
Qed.

(** A time with the hour and minute of [dt] and no seconds is the start the
    loop gives to its day. *)
Lemma slot_of_time dt t :
  getHours h t = getHours h dt →
  getMinutes h t = getMinutes h dt →
  (t + tz) mod 60000 = 0 →
  setHours h (setHours h t 0 0)
    ((getHours h dt * 60 + getMinutes h dt) / 60)
    ((getHours h dt * 60 + getMinutes h dt) mod 60)
  = t.
Proof.
  intros Hh Hm Hs.
  rewrite setHours_minutes by apply start_minutes_range.
  rewrite <- Hh, <- Hm.
  change (setHours h t 0 0) with (setHours h t (0 / 60) (0 mod 60)).
  rewrite setHours_same_day by lia.
  unfold day_of. fixed_time. clear Hh Hm.
  assert (H1 : ((t + tz) mod dayMs) mod 3600000 = (t + tz) mod 3600000).
  { apply Z.mod_mod_divide. by exists 24. }
  assert (H2 : ((t + tz) mod 3600000) mod 60000 = (t + tz) mod 60000).
  { apply Z.mod_mod_divide. by exists 60. }
  pose proof (Z_div_mod_eq_full (t + tz) dayMs) as E1.
  pose proof (Z_div_mod_eq_full ((t + tz) mod dayMs) 3600000) as E2.
  pose proof (Z_div_mod_eq_full ((t + tz) mod 3600000) 60000) as E3.
  lia.
Qed.

Lemma midnight_eq c :
  (c + tz) mod dayMs = 0 → c = dayMs * day_of tz c - tz.
Proof. unfold day_of. intros. div_lia. Qed.

Lemma setHours_midnight_mod t : (setHours h t 0 0 + tz) mod dayMs = 0.
Proof. rewrite setHours_midnight. unfold day_of. div_lia. Qed.

(** Between two local midnights the loop counts whole weeks of days. *)
Lemma weeks_from_start dt c :
  (c + tz) mod dayMs = 0 →
  (c - setHours h dt 0 0) / (7 * dayMs) = (day_of tz c - day_of tz dt) / 7.
Proof.
  intros Hc. rewrite setHours_midnight.
  rewrite (midnight_eq c Hc) at 1.
  replace (dayMs * day_of tz c - tz - (dayMs * day_of tz dt - tz))
    with (dayMs * (day_of tz c - day_of tz dt)) by lia.
  rewrite (Z.mul_comm 7 dayMs). by rewrite Z.div_mul_cancel_l.
Qed.

Lemma candidate_occurs series weekStart weekEnd c i :
  (c + tz) mod dayMs = 0 →
  parseRRule upper (Series.rrule series) !! "FREQ" = Some "WEEKLY"%string →
  candidate h series weekStart weekEnd (rule_byday h series)
    (rule_interval h series) c = Some i
  ↔ ∃ t, i = instance_at series t ∧ day_of tz t = day_of tz c
         ∧ occurs tz upper series weekStart weekEnd t.
Proof.
  intros Hc Hfreq.
  pose proof (slot_time_of_day (Series.dtstart series) c) as Hslot.
  cbv zeta in Hslot. destruct Hslot as (Hday&Hh&Hm&Hsec).
  unfold candidate. rewrite (weeks_from_start _ _ Hc), instance_at_or_num.
  set (s := setHours h c _ _) in *.
  split.
  - case_match eqn:Hcond; [|done]. intros [= <-].
    repeat (apply andb_prop in Hcond as [Hcond ?]).
    exists s. split; [done|]. split; [done|].
    unfold occurs. rewrite getDay_day_of, Hday, <- (getDay_day_of tz upper).
    split_and!; try done; try lia.
    destruct (number_or_null (Series.until_at series)); [|done]. lia.
  - intros (t&->&Hdt&Hocc). unfold occurs in Hocc.
    destruct Hocc as (_&Hwin&Hstart&Hth&Htm&Hts&Hwd&Hweeks&Huntil).
    assert (Hst : s = t).
    { unfold s. rewrite <- (slot_of_time (Series.dtstart series) t) by done.
      f_equal. rewrite setHours_midnight, Hdt. by apply midnight_eq. }
    rewrite Hst. rewrite getDay_day_of, Hdt, <- (getDay_day_of tz upper) in Hwd.
    rewrite Hdt in Hweeks. rewrite Hwd, Hweeks.
    assert (0 ≤ (day_of tz c - day_of tz (Series.dtstart series)) / 7) as Hw.
    { rewrite <- Hdt. pose proof (day_of_mono tz _ _ Hstart).
      apply Z.div_pos; lia. }
    destruct (Z.leb_spec 0 ((day_of tz c - day_of tz (Series.dtstart series)) / 7));
      [|lia].
    destruct (Z.leb_spec weekStart t), (Z.leb_spec t weekEnd),
      (Z.leb_spec (Series.dtstart series) t); try lia.
    simpl. destruct (number_or_null (Series.until_at series)) as [u|]; [|done].
    by destruct (Z.ltb_spec u t); [lia|].
Qed.

(** The candidates of the window's days are the occurrences in the
    window. *)
Lemma candidates_occur series weekStart weekEnd i :
  parseRRule upper (Series.rrule series) !! "FREQ" = Some "WEEKLY"%string →
  i ∈ omap (candidate h series weekStart weekEnd (rule_byday h series)
              (rule_interval h series))
        (days_from (setHours h weekStart 0 0)
           (iterations (setHours h weekStart 0 0) weekEnd))
  ↔ ∃ t, i = instance_at series t ∧ occurs tz upper series weekStart weekEnd t.
Proof.
  intros Hfreq. rewrite list_elem_of_omap. split.
  - intros (c&(k&_&->)%elem_of_days_from&Hcand).
    apply candidate_occurs in Hcand as (t&?&_&?); [by exists t| |done].
    pose proof (setHours_midnight_mod weekStart). div_lia.
  - intros (t&->&Hocc). exists (setHours h t 0 0).
    assert (Hwin : weekStart ≤ t ≤ weekEnd) by apply Hocc.
    split.
    + apply elem_of_days_from.
      exists (Z.to_nat (day_of tz t - day_of tz weekStart)).
      pose proof (day_of_mono tz _ _ (proj1 Hwin)).
      rewrite Z2Nat.id by lia. rewrite !setHours_midnight.
      split; [|lia]. unfold iterations.
      apply Z2Nat.inj_lt; [lia| |].
      * unfold day_of in *. div_lia.
      * unfold day_of in *. div_lia.
    + apply candidate_occurs; [apply setHours_midnight_mod|done|].
      exists t. split; [done|]. split; [|done].
      change (setHours h t 0 0) with (setHours h t (0 / 60) (0 mod 60)).
      by rewrite setHours_same_day by lia.
Qed.

(** Without [count] the result holds exactly the occurrences in the
    window. *)
Lemma genWeeklyInstances_occurs series weekStart weekEnd i :
  number_or_null (Series.count series) = None →
  i ∈ genWeeklyInstances h series weekStart weekEnd
  ↔ ∃ t, i = instance_at series t ∧ occurs tz upper series weekStart weekEnd t.
Proof.
  intros Hcount. rewrite genWeeklyInstances_candidates.
  unfold capped. rewrite Hcount.
  case_bool_decide as Hfreq; [by apply candidates_occur|].
  split; [by intros ?%elem_of_nil|]. intros (t&_&Hocc). by destruct Hocc.
Qed.

Lemma occurs_without_count series weekStart weekEnd t :
  occurs tz upper (without_count series) weekStart weekEnd t
  ↔ occurs tz upper series weekStart weekEnd t.
Proof. reflexivity. Qed.

(** The days of one weekday are whole weeks apart. *)
Lemma same_weekday t dt :
  getDay h t = getDay h dt ↔ (day_of tz t - day_of tz dt) mod 7 = 0.
Proof. rewrite !getDay_day_of. split; intros; div_lia. Qed.

Lemma occurs_every_n_weeks series weekStart weekEnd n t :
  parseRRule upper (Series.rrule series) !! "FREQ" = Some "WEEKLY"%string →
  parseRRule upper (Series.rrule series) !! "BYDAY" = None →
  rule_interval h series = Js.of_Z n → 1 ≤ n →
  (Series.dtstart series + tz) mod 60000 = 0 →
  number_or_null (Series.until_at series) = None →
  occurs tz upper series weekStart weekEnd t
  ↔ weekStart ≤ t ≤ weekEnd
    ∧ ∃ k, 0 ≤ k ∧ t = Series.dtstart series + k * (n * (7 * dayMs)).
Proof.
  intros Hfreq Hbyday Hint Hn Hdt Huntil.
  unfold occurs, rule_byday. cbn [toUpperCase fixed_zone].
  rewrite Hbyday, Hint, Huntil. simpl.
  pose proof (getDay_range h t) as Ht7.
  pose proof (getDay_range h (Series.dtstart series)) as Hd7.
  rewrite weekday_split, weekday_includes by lia.
  rewrite Z2Nat.inj_iff by lia. rewrite same_weekday.
  set (dt := Series.dtstart series) in *.
  destruct (Z.eqb_spec n 0) as [|_]; [lia|].
  rewrite Z.mul_1_r, Z.abs_eq by lia.
  pose proof (mod_day_split (t + tz)) as St.
  pose proof (mod_day_split (dt + tz)) as Sd.
  pose proof (Z_div_mod_eq_full (t + tz) dayMs) as Et.
  pose proof (Z_div_mod_eq_full (dt + tz) dayMs) as Ed.
  unfold day_of. fixed_time.
  set (Dt := (t + tz) / dayMs) in *. set (Dd := (dt + tz) / dayMs) in *.
  split.
  - intros (_&Hwin&Hstart&Hh&Hm&Hs&Hwd&Hw&_). split; [done|].
    rewrite Z.eqb_eq in Hw.
    pose proof (Z_div_mod_eq_full (Dt - Dd) 7) as E7.
    pose proof (Z_div_mod_eq_full ((Dt - Dd) / 7) n) as En.
    exists ((Dt - Dd) / 7 / n).
    assert (Hdiff : t - dt = dayMs * (Dt - Dd)) by lia.
    assert (0 ≤ Dt - Dd) by (unfold dayMs in *; nia).
    split.
    + apply Z.div_pos; [|lia]. apply Z.div_pos; lia.
    + assert (Hwd' : (Dt - Dd) mod 7 = 0) by (clear -Hwd; div_lia).
      rewrite Hw, Z.add_0_r in En. rewrite Hwd', Z.add_0_r in E7.
      rewrite E7, En in Hdiff. lia.
  - intros (Hwin&k&Hk&Htk).
    assert (Hx : t + tz = dt + tz + (k * n * 7) * dayMs) by lia.
    assert (Hmod : (t + tz) mod dayMs = (dt + tz) mod dayMs).
    { rewrite Hx. by apply Z_mod_plus_full. }
    assert (Hdiv : Dt = Dd + k * n * 7).
    { unfold Dt, Dd. rewrite Hx. by apply Z_div_plus_full. }
    assert (Hm36 : (t + tz) mod 3600000 = (dt + tz) mod 3600000).
    { rewrite Hx. replace (k * n * 7 * dayMs) with ((k * n * 7 * 24) * 3600000)
        by (unfold dayMs; lia). by apply Z_mod_plus_full. }
    assert (Hm6 : (t + tz) mod 60000 = (dt + tz) mod 60000).
    { rewrite Hx. replace (k * n * 7 * dayMs) with ((k * n * 7 * 1440) * 60000)
        by (unfold dayMs; lia). by apply Z_mod_plus_full. }
    assert (Hdd : Dt - Dd = (k * n) * 7) by lia.
    split_and!; try done.
    + lia.
    + lia.
    + unfold dayMs in *. nia.
    + by rewrite Hmod.
    + by rewrite Hm36.
    + lia.
    + replace (Dd - Dt) with ((- (k * n)) * 7) by lia. by apply Z_mod_mult.
    + rewrite Hdd, Z_div_mult by done. rewrite Z.eqb_eq. by apply Z_mod_mult.
Qed.

Lemma genWeeklyInstances_sound series weekStart weekEnd i :
  i ∈ genWeeklyInstances h series weekStart weekEnd →
  i = instance_at series (Instance.start_at i)
  ∧ Instance.original_instance_at i = Instance.start_at i
  ∧ occurs tz upper series weekStart weekEnd (Instance.start_at i).
Proof.
  intros Hi.
  pose proof (elem_of_sublist _ _ _ Hi
                (genWeeklyInstances_sublist h series weekStart weekEnd))
    as Hfull.
  apply genWeeklyInstances_occurs in Hfull as (t&->&Hocc); [|done].
  by split.
Qed.

End FixedOccurs.

(** ** Rule strings built from pieces *)

Lemma split_nonempty sep s : Js.split sep s ≠ [].
Proof.
  destruct s as [|c s]; simpl; [done|].
  destruct (Ascii.eqb c sep); [done|]. by destruct (Js.split sep s).
Qed.

Lemma split_append sep a b :
  Js.split sep (a +:+ String sep b) = Js.split sep a ++ Js.split sep b.
Proof.
  induction a as [|c a IH]; simpl.
  - by rewrite Ascii.eqb_refl.
  - destruct (Ascii.eqb c sep); [by rewrite IH|].
    rewrite IH. pose proof (split_nonempty sep a).
    by destruct (Js.split sep a).
Qed.

Lemma not_in_append c a b :
  c ∉ String.list_ascii_of_string a → c ∉ String.list_ascii_of_string b →
  c ∉ String.list_ascii_of_string (a +:+ b).
Proof.
  induction a as [|x a IH]; simpl; [done|].
  rewrite !not_elem_of_cons. intros [? ?] ?. split; [done|by apply IH].
Qed.

(** A rule followed by [";"] and a piece without [";"] is parsed as the rule
    and then the piece. *)
Lemma parseRRule_append upper rrule piece :
  ";"%char ∉ String.list_ascii_of_string piece →
  parseRRule upper (rrule +:+ String ";" piece)
  = parse_piece upper (parseRRule upper rrule) piece.
Proof.
  intros Hpiece. unfold parseRRule.
  by rewrite split_append, foldl_app, (split_without_separator _ piece).
Qed.

Lemma parse_piece_pair upper map k v :
  k ≠ EmptyString → v ≠ EmptyString →
  "="%char ∉ String.list_ascii_of_string k →
  "="%char ∉ String.list_ascii_of_string v →
  parse_piece upper map (k +:+ String "=" v) = <[upper k := v]> map.
Proof.
  intros Hk Hv Hke Hve. unfold parse_piece.
  rewrite split_append, !split_without_separator by done.
  by destruct k, v.
Qed.

Lemma upper_char_idemp c : Js.upper_char (Js.upper_char c) = Js.upper_char c.
Proof. destruct c as [[] [] [] [] [] [] [] []]; reflexivity. Qed.

Lemma ascii_upper_idemp s :
  Js.ascii_upper (Js.ascii_upper s) = Js.ascii_upper s.
Proof.
  induction s as [|c s IH]; simpl; [done|]. by rewrite upper_char_idemp, IH.
Qed.

(** ** The week query, continued *)

(** A series the query's WHERE clause leaves out has no instance in the
    window, unless its until_at is 0. *)
Lemma series_outside_window h series weekStart weekEnd :
  Series.until_at series ≠ Some 0 →
  (Series.dtstart series <=? weekEnd)
  && match Series.until_at series with
     | Some u => weekStart <=? u
     | None => true
     end = false →
  genWeeklyInstances h series weekStart weekEnd = [].
Proof.
  intros Hu Hout.
  pose proof (genWeeklyInstances_guards h series weekStart weekEnd) as Hall.
  destruct (genWeeklyInstances h series weekStart weekEnd) as [|i l]; [done|].
  apply Forall_cons in Hall as [((Hwin&Hstart&Huntil)&_) _].
  apply andb_false_iff in Hout as [Hout|Hout]; [lia|].
  destruct (Series.until_at series) as [u|]; [|done]. simpl in Huntil.
  destruct (Z.eqb_spec u 0) as [->|_]; [done|]. lia.
Qed.

Lemma virtual_id_inj series a b :
  virtual_id series a = virtual_id series b → a = b.
Proof.
  unfold virtual_id. intros H.
  apply String.app_inj in H. simpl in H. injection H as H.
  by apply pretty_Z_inj in H.
Qed.

(** ** The ICS export, continued *)

Lemma append_assoc (a b c : string) : (a +:+ b) +:+ c = a +:+ (b +:+ c).
Proof.
  induction a as [|x a IH]; [done|]. exact (f_equal (String x) IH).
Qed.

Lemma append_nil_r (a : string) : a +:+ "" = a.
Proof.
  induction a as [|x a IH]; [done|]. exact (f_equal (String x) IH).
Qed.

Lemma join_terminated sep l :
  l ≠ [] →
  Js.join sep l +:+ sep = foldr (fun line rest => line +:+ sep +:+ rest) "" l.
Proof.
  induction l as [|x l IH]; [done|]. intros _. simpl.
  destruct l as [|y l].
  - simpl. by rewrite append_nil_r.
  - rewrite !append_assoc. f_equal. f_equal. by apply IH.
Qed.

Lemma strip_reserved_chars s c :
  c ∈ String.list_ascii_of_string (strip_reserved s) →
  c ∈ String.list_ascii_of_string s
  ∧ c ≠ ","%char ∧ c ≠ ";"%char ∧ c ≠ "\"%char.
Proof.
  induction s as [|x s IH]; simpl; [by intros ?%elem_of_nil|].
  destruct (Ascii.eqb_spec x ","), (Ascii.eqb_spec x ";"),
    (Ascii.eqb_spec x "\"); simpl;
    try (intros [? ?]%IH; split; [by right|done]).
  intros [->|[? ?]%IH]%elem_of_cons; (split; [|done]); by constructor.
Qed.


(** ** The handlers that write keep the keys *)

Lemma truthy_str_Some x : truthy_str x = true → ∃ s, x = Some s ∧ s ≠ ""%string.
Proof. destruct x as [[|c s]|]; try done. intros _. by eexists. Qed.

Lemma truthy_num_or_num x y : truthy_num x = true → x = Some (Js.or_num x y).
Proof.
  destruct x as [n|]; [|done]. simpl. by destruct (n =? 0).
Qed.

Lemma head_filter_elem_of {A} (P : A → Prop) `{∀ x, Decision (P x)} l x :
  head (filter P l) = Some x → x ∈ l ∧ P x.
Proof.
  intros Hh. apply head_Some in Hh as [rest Hh].
  assert (Hx : x ∈ filter P l) by (rewrite Hh; left).
  by apply list_elem_of_filter in Hx as [? ?].
Qed.

Lemma head_filter_None {A} (P : A → Prop) `{∀ x, Decision (P x)} l x :
  head (filter P l) = None → x ∈ l → ¬ P x.
Proof.
  intros Hh Hx HP.
  assert (Hin : x ∈ filter P l) by (apply list_elem_of_filter; done).
  destruct (filter P l); [by apply elem_of_nil in Hin|done].
Qed.

Lemma omap_map {A B C} (g : B → option C) (f : A → B) (l : list A) :
  omap g (map f l) = omap (fun x => g (f x)) l.
Proof.
  induction l as [|x l IH]; [done|]. simpl.
  destruct (g (f x)); [f_equal|]; exact IH.
Qed.

(** A store with the same key columns satisfies the same key constraints. *)
Lemma store_inv_keys db db' :
  clients db' = clients db →
  map appointment_keys (appointments db')
  = map appointment_keys (appointments db) →
  map series_keys (recurring_series db')
  = map series_keys (recurring_series db) →
  NoDup (map Exception.id (recurring_exceptions db')) →
  (∀ e, e ∈ recurring_exceptions db' →
        e ∈ recurring_exceptions db
        ∨ (Exception.recurring_series_id e
             ∈ map Series.id (recurring_series db)
           ∧ Exception.status e = "Moved"%string
           ∧ is_Some (Exception.new_start_at e)
           ∧ is_Some (Exception.new_end_at e))) →
  store_inv db → store_inv db'.
Proof.
  intros Hc Ha Hs Hex Hex' [I1 I2 I3 I4 I5 I6 I7 I8].
  assert (Hid : map Appointment.id (appointments db')
                = map Appointment.id (appointments db)).
  { transitivity (map (fun k => k.1.1)
                    (map appointment_keys (appointments db')));
      [by rewrite map_map|].
    rewrite Ha. by rewrite map_map. }
  assert (Hsid : map Series.id (recurring_series db')
                 = map Series.id (recurring_series db)).
  { transitivity (map fst (map series_keys (recurring_series db')));
      [by rewrite map_map|].
    rewrite Hs. by rewrite map_map. }
  assert (Hkeys : ∀ a, a ∈ appointments db' →
            ∃ b, b ∈ appointments db ∧ appointment_keys a = appointment_keys b).
  { intros a Hin.
    apply (list_elem_of_fmap_2 appointment_keys) in Hin.
    change (appointment_keys a ∈ map appointment_keys (appointments db'))
      in Hin.
    rewrite Ha in Hin.
    apply list_elem_of_fmap in Hin as (b&?&?). by exists b. }
  assert (Hskeys : ∀ s, s ∈ recurring_series db →
            ∃ s', s' ∈ recurring_series db' ∧ series_keys s' = series_keys s).
  { intros s Hin.
    apply (list_elem_of_fmap_2 series_keys) in Hin.
    change (series_keys s ∈ map series_keys (recurring_series db)) in Hin.
    rewrite <- Hs in Hin.
    apply list_elem_of_fmap in Hin as (b&?&?). by exists b. }
  split.
  - by rewrite Hc.
  - by rewrite Hid.
  - by rewrite Hsid.
  - done.
  - intros a (b&Hb&[= _ Hcl _])%Hkeys. rewrite Hc, Hcl. by apply I5.
  - intros a sid (b&Hb&[= _ Hcl Hrs])%Hkeys Hsome.
    rewrite Hrs in Hsome. destruct (I6 b sid Hb Hsome) as (s&Hin&Hi&Hcs).
    apply Hskeys in Hin as (s'&Hin'&[= Hi' Hc']).
    exists s'. split; [done|]. split; congruence.
  - replace (omap Appointment.recurring_series_id (appointments db'))
      with (omap Appointment.recurring_series_id (appointments db)); [done|].
    transitivity (omap snd (map appointment_keys (appointments db)));
      [by rewrite omap_map|].
    rewrite <- Ha. by rewrite omap_map.
  - intros e He. rewrite Hsid. destruct (Hex' e He) as [Hold|Hnew]; [|done].
    by apply I8.
Qed.

Lemma update_keeps_keys {A K} (key : A → K) (where_ : A → bool) (set : A → A)
    (l : list A) :
  (∀ a, key (set a) = key a) →
  map key (map (fun a => if where_ a then set a else a) l) = map key l.
Proof.
  intros Hset. rewrite map_map. apply map_ext. intros a.
  by destruct (where_ a).
Qed.

(** PATCH writes no key column; the one row it can add is a 'Moved'
    exception of the series of the appointment it was sent for. *)
Ltac proj_simpl :=
  unfold update_appointments;
  cbn [clients appointments recurring_series recurring_exceptions].

Lemma patch_appointment_frame db exId id body db' :
  left_by (patch_appointment db exId id body) = Some db' →
  clients db' = clients db
  ∧ map appointment_keys (appointments db')
    = map appointment_keys (appointments db)
  ∧ map series_keys (recurring_series db')
    = map series_keys (recurring_series db)
  ∧ (recurring_exceptions db' = recurring_exceptions db
     ∨ ∃ appt sid key newStart newEnd,
         appointment_by_id db id = Some appt
         ∧ Appointment.recurring_series_id appt = Some sid
         ∧ (exId ∉ map Exception.id (recurring_exceptions db))
         ∧ recurring_exceptions db'
           = recurring_exceptions db
             ++ [Exception.mk exId sid key (Some newStart) (Some newEnd)
                   "Moved"]).
Proof.
  unfold patch_appointment.
  destruct (appointment_by_id db id) as [appt|] eqn:Happt; [|done].
  cbv zeta.
  destruct (truthy_str (Patch.status body) && _); [done|].
  destruct (bool_decide (default "this"%string (Patch.scope body) = "series"%string)
            && truthy_str (Appointment.recurring_series_id appt)
            && _) eqn:Hseries.
  { intros [= <-]. proj_simpl. split; [done|].
    split; [by apply update_keeps_keys|].
    split; [|by left].
    rewrite map_map. apply map_ext. intros s. simpl.
    destruct (bool_decide (Series.id s = _)); reflexivity. }
  destruct ((truthy_num (Patch.startAt body) || truthy_num (Patch.endAt body))
            && truthy_str (Appointment.recurring_series_id appt) && _)
    eqn:Hthis.
  { apply andb_prop in Hthis as [[_ Hrec]%andb_prop _].
    apply truthy_str_Some in Hrec as (sid&Hsid&_).
    destruct (bool_decide (exId ∈ _)) eqn:Hfresh; cbn [left_by];
      intros [= <-]; [by repeat split; try left|].
    apply bool_decide_eq_false in Hfresh.
    proj_simpl. split; [done|]. split; [by apply update_keeps_keys|].
    split; [done|]. right. rewrite Hsid. by repeat eexists. }
  intros [= <-]. proj_simpl. split; [done|].
  split; [by apply update_keeps_keys|]. by split; [|left].
Qed.

Lemma patch_appointment_inv db exId id body db' :
  store_inv db →
  left_by (patch_appointment db exId id body) = Some db' →
  store_inv db'.
Proof.
  intros Hinv (Hc&Ha&Hs&Hex)%patch_appointment_frame.
  apply (store_inv_keys db); try done.
  - destruct Hex as [->|(appt&sid&key&ns&ne&_&_&Hfresh&->)];
      [by apply Hinv|].
    rewrite map_app. apply NoDup_app. split; [by apply Hinv|].
    split; [|by apply NoDup_singleton].
    intros x Hx [->|[]%elem_of_nil]%elem_of_cons. done.
  - intros e He.
    destruct Hex as [Heq|(appt&sid&key&ns&ne&Happt&Hsid&_&Heq)];
      rewrite Heq in He; [by left|].
    apply elem_of_app in He as [He|[->|[]%elem_of_nil]%elem_of_cons];
      [by left|].
    right. simpl. split; [|by eauto].
    apply head_filter_elem_of in Happt as [Hin _].
    destruct (inv_appointment_series db Hinv appt sid Hin Hsid)
      as (s&Hs'&<-&_).
    by apply (list_elem_of_fmap_2 Series.id).
Qed.

Lemma post_client_inv db id name status db' :
  store_inv db →
  left_by (post_client db id name status) = Some db' →
  store_inv db'.
Proof.
  intros [I1 I2 I3 I4 I5 I6 I7 I8]. unfold post_client.
  destruct (negb (truthy_str name)); [done|].
  destruct (negb _); [done|].
  case_bool_decide as Hfresh; intros [= <-]; [done|].
  split; simpl; try done.
  - rewrite map_app. apply NoDup_app. split; [done|].
    split; [|by apply NoDup_singleton].
    intros x Hx [->|[]%elem_of_nil]%elem_of_cons. done.
  - intros a Ha. rewrite map_app. apply elem_of_app. left. by apply I5.
Qed.

Lemma post_appointment_inv db seriesId id body db' :
  store_inv db →
  left_by (post_appointment db seriesId id body) = Some db' →
  store_inv db'.
Proof.
  intros Hinv. pose proof Hinv as [I1 I2 I3 I4 I5 I6 I7 I8].
  unfold post_appointment. cbv zeta.
  destruct (negb (truthy_str (NewAppointment.clientId body)) || _); [done|].
  case_bool_decide as Hclient; [done|].
  destruct (client_by_id db _) as [c|] eqn:Hc; [clear Hclient|done].
  apply head_filter_elem_of in Hc as [Hcin Hcid].
  assert (Hcl : default ""%string (NewAppointment.clientId body)
                ∈ map Client.id (clients db)).
  { rewrite <- Hcid. by apply (list_elem_of_fmap_2 Client.id). }
  assert (Hlinks : ∀ sid, sid ∈ omap Appointment.recurring_series_id
                                  (appointments db) →
                          sid ∈ map Series.id (recurring_series db)).
  { intros sid (a&Ha&Hsid)%list_elem_of_omap.
    destruct (I6 a sid Ha Hsid) as (s&Hs&<-&_).
    by apply (list_elem_of_fmap_2 Series.id). }
  destruct (NewAppointment.recurring body) as [recurring|].
  - case_bool_decide as Hsfresh; [by intros [= <-]|].
    simpl. case_bool_decide as Hfresh; intros [= <-].
    + split; simpl; try done.
      * rewrite map_app. apply NoDup_app. split; [done|].
        split; [|by apply NoDup_singleton].
        intros x Hx [->|[]%elem_of_nil]%elem_of_cons. done.
      * intros a sid Ha Hsid. destruct (I6 a sid Ha Hsid) as (s&Hs&?&?).
        exists s. split; [|done]. apply elem_of_app. by left.
      * intros e He. rewrite map_app.
        destruct (I8 e He) as (?&?&?&?). split; [|done].
        apply elem_of_app. by left.
    + split; simpl; try done.
      * rewrite map_app. apply NoDup_app. split; [done|].
        split; [|by apply NoDup_singleton].
        intros x Hx [->|[]%elem_of_nil]%elem_of_cons. done.
      * rewrite map_app. apply NoDup_app. split; [done|].
        split; [|by apply NoDup_singleton].
        intros x Hx [->|[]%elem_of_nil]%elem_of_cons. done.
      * intros a [Ha|[->|[]%elem_of_nil]%elem_of_cons]%elem_of_app;
          [by apply I5|done].
      * intros a sid [Ha|[->|[]%elem_of_nil]%elem_of_cons]%elem_of_app Hsid.
        -- destruct (I6 a sid Ha Hsid) as (s&Hs&?&?).
           exists s. split; [|done]. apply elem_of_app. by left.
        -- injection Hsid as <-. eexists.
           split; [apply elem_of_app; right; left|done].
      * rewrite omap_app. simpl. apply NoDup_app. split; [done|].
        split; [|by apply NoDup_singleton].
        intros x Hx%Hlinks [->|[]%elem_of_nil]%elem_of_cons. done.
      * intros e He. rewrite map_app.
        destruct (I8 e He) as (?&?&?&?). split; [|done].
        apply elem_of_app. by left.
  - case_bool_decide as Hfresh; intros [= <-]; [done|].
    split; simpl; try done.
    + rewrite map_app. apply NoDup_app. split; [done|].
      split; [|by apply NoDup_singleton].
      intros x Hx [->|[]%elem_of_nil]%elem_of_cons. done.
    + intros a [Ha|[->|[]%elem_of_nil]%elem_of_cons]%elem_of_app;
        [by apply I5|done].
    + intros a sid [Ha|[->|[]%elem_of_nil]%elem_of_cons]%elem_of_app Hsid;
        [by apply I6|done].
    + rewrite omap_app. simpl. by rewrite app_nil_r.
Qed.

Lemma empty_store_inv : store_inv empty_store.
Proof.
  split; simpl; try apply NoDup_nil_2; intros;
    by match goal with H : _ ∈ [] |- _ => apply elem_of_nil in H end.
Qed.

Lemma reachable_inv db : reachable db → store_inv db.
Proof.
  induction 1 as [|db id name status db' _ IH Hstep
                  |db seriesId id body db' _ IH Hstep
                  |db exId id body db' _ IH Hstep].
  - apply empty_store_inv.
  - by apply (post_client_inv db id name status).
  - by apply (post_appointment_inv db seriesId id body).
  - by apply (patch_appointment_inv db exId id body).
Qed.

Lemma head_filter_unique {A K} `{EqDecision K} (key : A → K) (l : list A) x :
  NoDup (map key l) → x ∈ l →
  head (filter (fun y => key y = key x) l) = Some x.
Proof.
  induction l as [|y l IH]; intros Hnd Hx; [by apply elem_of_nil in Hx|].
  apply NoDup_cons in Hnd as [Hy Hnd]. rewrite filter_cons.
  apply elem_of_cons in Hx as [->|Hx].
  - by rewrite decide_True.
  - rewrite decide_False; [by apply IH|].
    intros Heq. apply Hy. rewrite Heq.
    by apply (list_elem_of_fmap_2 key).
Qed.


Lemma reachable_sample rule : reachable (sample_db rule []).
Proof.
  apply (reachable_post_appointment
           {| clients := [Client.mk "c1" "Ann"]; appointments := [];
              recurring_series := []; recurring_exceptions := [] |}
           "s1" "a1" (weekly_request rule));
    [|reflexivity].
  apply (reachable_post_client empty_store "c1" (Some "Ann"%string) None);
    [apply reachable_empty|reflexivity].
Qed.

Lemma reachable_moved_anchor : reachable moved_anchor_db.
Proof.
  apply (reachable_patch_appointment (sample_db "FREQ=WEEKLY;BYDAY=WE" [])
           "e1" "a1" move_request);
    [apply reachable_sample|reflexivity].
Qed.

(** In a store the API has written no exception cancels: the overlay keeps
    every generated instance. *)
Lemma overlay_keeps db series client exceptions item :
  store_inv db →
  (∀ e, e ∈ exceptions → e ∈ recurring_exceptions db) →
  is_Some (overlay series client (exception_map exceptions) item).
Proof.
  intros Hinv Hsub. unfold overlay. rewrite bool_decide_eq_false_2; [done|].
  destruct (exception_map exceptions !! Instance.original_instance_at item)
    as [e|] eqn:He; [|done].
  apply exception_map_lookup in He as [He%Hsub _].
  destruct (inv_exception_series db Hinv e He) as (_&Hst&_).
  simpl. rewrite Hst. by intros [=].
Qed.

Lemma map_omap_total {A B C} (f : A → option B) (g : B → C) (h : A → C)
    (l : list A) :
  (∀ x, is_Some (f x)) → (∀ x y, f x = Some y → g y = h x) →
  map g (omap f l) = map h l.
Proof.
  intros Htotal Hgh. induction l as [|x l IH]; [done|]. simpl.
  destruct (Htotal x) as [y Hy]. pose proof (Hgh x y Hy) as Hg.
  destruct (f x); [|done]. injection Hy as ->. simpl. rewrite Hg. f_equal.
  exact IH.
Qed.

(** ** getClientStats and safeName *)

Lemma foldl_max_spec l x :
  (foldl Z.max x l = x ∨ foldl Z.max x l ∈ l)
  ∧ x ≤ foldl Z.max x l ∧ ∀ y, y ∈ l → y ≤ foldl Z.max x l.
Proof.
  revert x. induction l as [|z l IH]; intros x; simpl.
  - split; [by left|]. split; [lia|]. by intros y ?%elem_of_nil.
  - destruct (IH (Z.max x z)) as ([Heq|Hin]&Hle&Hall).
    + split; [|split; [lia|]].
      * rewrite Heq. destruct (Z.max_spec x z) as [[_ ->]|[_ ->]];
          [right; left|by left].
      * intros y [->|Hy]%elem_of_cons; [lia|by apply Hall].
    + split; [by right; right|]. split; [lia|].
      intros y [->|Hy]%elem_of_cons; [lia|by apply Hall].
Qed.

Lemma foldl_min_spec l x :
  (foldl Z.min x l = x ∨ foldl Z.min x l ∈ l)
  ∧ foldl Z.min x l ≤ x ∧ ∀ y, y ∈ l → foldl Z.min x l ≤ y.
Proof.
  revert x. induction l as [|z l IH]; intros x; simpl.
  - split; [by left|]. split; [lia|]. by intros y ?%elem_of_nil.
  - destruct (IH (Z.min x z)) as ([Heq|Hin]&Hle&Hall).
    + split; [|split; [lia|]].
      * rewrite Heq. destruct (Z.min_spec x z) as [[_ ->]|[_ ->]];
          [by left|right; left].
      * intros y [->|Hy]%elem_of_cons; [lia|by apply Hall].
    + split; [by right; right|]. split; [lia|].
      intros y [->|Hy]%elem_of_cons; [lia|by apply Hall].
Qed.

Lemma sql_max_spec l m :
  sql_max l = Some m ↔ m ∈ l ∧ ∀ y, y ∈ l → y ≤ m.
Proof.
  destruct l as [|x l]; simpl.
  - split; [done|]. by intros [?%elem_of_nil _].
  - pose proof (foldl_max_spec l x) as (Hin&Hle&Hall). split.
    + intros [= <-]. split.
      * destruct Hin as [->|Hin]; [left|by right].
      * intros y [->|Hy]%elem_of_cons; [done|by apply Hall].
    + intros [Hm Hmax]. f_equal. apply Z.le_antisymm.
      * apply Hmax. destruct Hin as [->|Hin]; [left|by right].
      * apply elem_of_cons in Hm as [->|Hm]; [done|by apply Hall].
Qed.

Lemma sql_min_spec l m :
  sql_min l = Some m ↔ m ∈ l ∧ ∀ y, y ∈ l → m ≤ y.
Proof.
  destruct l as [|x l]; simpl.
  - split; [done|]. by intros [?%elem_of_nil _].
  - pose proof (foldl_min_spec l x) as (Hin&Hle&Hall). split.
    + intros [= <-]. split.
      * destruct Hin as [->|Hin]; [left|by right].
      * intros y [->|Hy]%elem_of_cons; [done|by apply Hall].
    + intros [Hm Hmin]. f_equal. apply Z.le_antisymm.
      * apply elem_of_cons in Hm as [->|Hm]; [done|by apply Hall].
      * apply Hmin. destruct Hin as [->|Hin]; [left|by right].
Qed.

Lemma or_null_Some x t : or_null x = Some t ↔ x = Some t ∧ t ≠ 0.
Proof.
  destruct x as [n|]; simpl; [|by split; [|intros [? _]]].
  destruct (Z.eqb_spec n 0) as [->|Hn]; split.
  - done.
  - by intros [[= <-] ?].
  - by intros [= <-].
  - by intros [[= <-] _].
Qed.

Lemma slice0_length n s : (String.length (slice0 n s) ≤ n)%nat.
Proof.
  revert s. induction n as [|n IH]; intros [|c s]; simpl; try lia.
  specialize (IH s). lia.
Qed.

Lemma slice0_chars (P : ascii → Prop) n s :
  Forall P (String.list_ascii_of_string s) →
  Forall P (String.list_ascii_of_string (slice0 n s)).
Proof.
  revert s. induction n as [|n IH]; intros [|c s] Hs; simpl;
    try constructor.
  - by apply Forall_cons in Hs as [? ?].
  - apply IH. by apply Forall_cons in Hs as [? ?].
Qed.

Lemma slice0_short n s : (String.length s ≤ n)%nat → slice0 n s = s.
Proof.
  revert s. induction n as [|n IH]; intros [|c s]; simpl; try done; try lia.
  intros Hl. f_equal. apply IH. lia.
Qed.

Lemma replace_forbidden_chars s :
  Forall (fun c => forbidden c = false)
    (String.list_ascii_of_string (replace_forbidden s)).
Proof.
  induction s as [|c s IH]; simpl; constructor; [|done].
  by destruct (forbidden c) eqn:Hc.
Qed.

Lemma replace_forbidden_clean s :
  Forall (fun c => forbidden c = false) (String.list_ascii_of_string s) →
  replace_forbidden s = s.
Proof.
  induction s as [|c s IH]; simpl; [done|].
  intros [Hc Hs]%Forall_cons. rewrite Hc. f_equal. by apply IH.
Qed.

(** ** Requests and the week view *)

Lemma join_row db a c :
  a ∈ appointments db → c ∈ clients db →
  Client.id c = Appointment.client_id a →
  (a, Client.name c) ∈ appointments_join_clients db.
Proof.
  intros Ha Hc Hid. unfold appointments_join_clients.
  apply list_elem_of_In, in_flat_map. exists a.
  split; [by apply list_elem_of_In|]. apply list_elem_of_In.
  apply (list_elem_of_fmap_2 (fun c => (a, Client.name c))).
  by apply list_elem_of_filter.
Qed.

Lemma head_filter_update {A K} `{EqDecision K} (key : A → K) (k : K)
    (where_ : A → bool) (set : A → A) (l : list A) :
  (∀ a, key (set a) = key a) →
  head (filter (fun a => key a = k)
          (map (fun a => if where_ a then set a else a) l))
  = (fun a => if where_ a then set a else a)
      <$> head (filter (fun a => key a = k) l).
Proof.
  intros Hset. induction l as [|a l IH]; [done|].
  simpl. rewrite !filter_cons.
  assert (Hk : key (if where_ a then set a else a) = key a)
    by (destruct (where_ a); [apply Hset|done]).
  rewrite Hk. by destruct (decide (key a = k)).
Qed.

(** ** The text of the export and its lines *)

Lemma chars_append (a b : string) :
  String.list_ascii_of_string (a +:+ b)
  = String.list_ascii_of_string a ++ String.list_ascii_of_string b.
Proof.
  induction a as [|x a IH]; [done|]. exact (f_equal (cons x) IH).
Qed.

Lemma one_line_append a b : one_line a → one_line b → one_line (a +:+ b).
Proof.
  unfold one_line. rewrite chars_append, Forall_app. by split.
Qed.

Lemma one_line_pretty_N_go x s : one_line s → one_line (pretty_N_go x s).
Proof.
  revert s. induction (N.lt_wf_0 x) as [x _ IH]; intros s Hs.
  assert (x = 0 ∨ 0 < x)%N as [->|Hx] by lia.
  - by rewrite pretty_N_go_0.
  - rewrite pretty_N_go_step by done. apply IH; [by apply N.div_lt|].
    apply Forall_cons. split; [|done].
    unfold pretty_N_char. by repeat case_match.
Qed.

Lemma one_line_pretty_N (x : N) : one_line (pretty x).
Proof.
  unfold pretty, pretty_N. case_decide; [by repeat constructor|].
  apply one_line_pretty_N_go. constructor.
Qed.

Lemma one_line_pretty (z : Z) : one_line (pretty z).
Proof.
  destruct z as [|p|p]; simpl.
  - by repeat constructor.
  - apply one_line_pretty_N.
  - apply (one_line_append "-"); [by repeat constructor|].
    apply one_line_pretty_N.
Qed.

Lemma one_line_pad n : one_line (pad n).
Proof.
  unfold pad. case_match; [|apply one_line_pretty].
  apply (one_line_append "0"); [by repeat constructor|apply one_line_pretty].
Qed.

Lemma one_line_formatIcsDate t : one_line (formatIcsDate t).
Proof.
  unfold formatIcsDate.
  repeat (apply one_line_append);
    try apply one_line_pretty; try apply one_line_pad;
    by repeat constructor.
Qed.

Lemma one_line_strip_reserved s : one_line s → one_line (strip_reserved s).
Proof.
  unfold one_line. rewrite !Forall_forall. intros Hs c Hc.
  apply strip_reserved_chars in Hc as [Hc _]. by apply Hs.
Qed.

Lemma join_rows_elem db row :
  row ∈ appointments_join_clients db →
  row.1 ∈ appointments db
  ∧ ∃ c, c ∈ clients db ∧ Client.id c = Appointment.client_id row.1
         ∧ row.2 = Client.name c.
Proof.
  unfold appointments_join_clients.
  intros (a&Ha&Hrow)%list_elem_of_In%in_flat_map.
  apply list_elem_of_In in Ha, Hrow.
  apply list_elem_of_fmap in Hrow as (c&->&[Hid Hc]%list_elem_of_filter).
  split; [done|]. by exists c.
Qed.

Lemma one_line_vevent db stamp row :
  one_line_store db → row ∈ appointments_join_clients db →
  Forall one_line (vevent db stamp row).
Proof.
  intros [Hids Hnames Hrules] (Ha&c&Hc&_&Hname)%join_rows_elem.
  unfold vevent. rewrite !Forall_app. split_and!.
  - assert (H1 : one_line "BEGIN:VEVENT") by (by repeat constructor).
    assert (H2 : one_line ("UID:" +:+ Appointment.id row.1 +:+ "@local")).
    { apply (one_line_append "UID:"); [by repeat constructor|].
      apply one_line_append; [by apply Hids|by repeat constructor]. }
    assert (H3 : ∀ p t, one_line p → one_line (p +:+ formatIcsDate t)).
    { intros p t Hp. apply one_line_append; [done|].
      apply one_line_formatIcsDate. }
    assert (H4 : one_line ("SUMMARY:" +:+ strip_reserved row.2)).
    { apply (one_line_append "SUMMARY:"); [by repeat constructor|].
      rewrite Hname. by apply one_line_strip_reserved, Hnames. }
    repeat (apply Forall_cons_2;
            [first [assumption | apply H3; by repeat constructor]|]).
    constructor.
  - case_bool_decide; by repeat constructor.
  - unfold rrule_line.
    destruct (Appointment.recurring_series_id row.1) as [[|x sid]|];
      [constructor| |constructor].
    destruct (series_by_id db (String x sid)) as [series|] eqn:Hs;
      [|constructor].
    apply head_filter_elem_of in Hs as [Hs _].
    pose proof (Hrules series Hs) as Hrule.
    destruct (Series.rrule series) as [|y rule]; [constructor|].
    apply Forall_singleton.
    by apply (one_line_append "RRULE:"); [by repeat constructor|].
  - by repeat constructor.
Qed.

Lemma one_line_ics_lines db now :
  one_line_store db → Forall one_line (ics_lines db now).
Proof.
  intros Hdb. unfold ics_lines. rewrite !Forall_app. split_and!.
  - by repeat constructor.
  - apply Forall_forall. intros line Hline.
    apply list_elem_of_In, in_concat in Hline as (block&Hblock&Hline).
    apply list_elem_of_In in Hblock, Hline.
    apply elem_of_lookup_imap in Hblock as (i&row&->&Hrow).
    apply list_elem_of_lookup_2 in Hrow.
    unfold ics_events in Hrow. apply list_elem_of_filter in Hrow as [_ Hrow].
    pose proof (one_line_vevent db (now i) row Hdb Hrow) as Hall.
    rewrite Forall_forall in Hall. by apply Hall.
  - by repeat constructor.
Qed.

(** A line without CR, followed by CR LF, is the first line of the text. *)
Lemma text_lines_cons line rest :
  one_line line →
  text_lines (line +:+ CRLF +:+ rest) = line :: text_lines rest.
Proof.
  induction line as [|c line IH]; intros Hline; [reflexivity|].
  apply Forall_cons in Hline as [[Hc _] Hline].
  change (String c line +:+ CRLF +:+ rest)
    with (String c (line +:+ CRLF +:+ rest)).
  assert (Hstep : ∀ s, s ≠ EmptyString →
    text_lines (String c s)
    = match text_lines s with
      | piece :: pieces => String c piece :: pieces
      | [] => [String c EmptyString]
      end).
  { intros [|d s] Hs; [done|]. simpl.
    destruct (Ascii.eqb_spec c CR) as [->|_]; [done|]. done. }
  rewrite Hstep, (IH Hline); [done|].
  by destruct line.
Qed.

Lemma text_lines_terminated lines :
  Forall one_line lines →
  text_lines (foldr (fun line rest => line +:+ CRLF +:+ rest) "" lines)
  = lines ++ [EmptyString].
Proof.
  induction 1 as [|line lines Hline _ IH]; [reflexivity|].
  simpl. by rewrite text_lines_cons, IH.
Qed.

(** When no id, name or rule holds a line break, the lines of the text
    sent are the elements of the array [lines], and an empty piece after
    the last CR LF. *)
Lemma text_lines_ics db now :
  one_line_store db →
  text_lines (ics db now) = ics_lines db now ++ [EmptyString].
Proof.
  intros Hdb. unfold ics. rewrite join_terminated by done.
  by apply text_lines_terminated, one_line_ics_lines.
Qed.

(** ** The overlay, key by key *)

Lemma filter_omap_same_key {A B K} `{EqDecision K}
    (f : A → option B) (ka : A → K) (kb : B → K) (l : list A) (k : K) :
  (∀ a b, f a = Some b → kb b = ka a) →
  filter (fun b => kb b = k) (omap f l) = omap f (filter (fun a => ka a = k) l).
Proof.
  intros Hkey. induction l as [|a l IH]; [done|].
  rewrite filter_cons. simpl.
  destruct (f a) as [b|] eqn:Hfa.
  - rewrite filter_cons, (Hkey _ _ Hfa).
    case_decide; simpl; [|exact IH]. rewrite Hfa. f_equal. exact IH.
  - case_decide; simpl; [|exact IH]. rewrite Hfa. exact IH.
Qed.

Lemma filter_all_same {A} (P : A → Prop) `{∀ x, Decision (P x)}
    (l : list A) (x : A) :
  x ∈ l → P x → (∀ y, y ∈ l → P y → y = x) →
  ∃ n, filter P l = replicate (S n) x.
Proof.
  intros Hx HP Hsame.
  assert (Hall : Forall (fun y => x = y) (filter P l)).
  { apply Forall_forall. intros y [? ?]%list_elem_of_filter.
    symmetry. by apply Hsame. }
  assert (Hin : x ∈ filter P l) by (by apply list_elem_of_filter).
  destruct (filter P l) as [|y k]; [by apply elem_of_nil in Hin|].
  exists (length k). symmetry. by apply replicate_as_Forall.
Qed.

(** The instances of one result that have one original instance time are
    one and the same instance. *)
Lemma genWeeklyInstances_same_origin h series weekStart weekEnd item :
  item ∈ genWeeklyInstances h series weekStart weekEnd →
  ∃ n,
    filter (fun i => Some (Instance.original_instance_at i)
                     = Some (Instance.original_instance_at item))
      (genWeeklyInstances h series weekStart weekEnd)
    = replicate (S n) item.
Proof.
  intros Hin.
  pose proof (genWeeklyInstances_guards h series weekStart weekEnd) as Hall.
  rewrite Forall_forall in Hall.
  apply (filter_all_same
           (fun i => Some (Instance.original_instance_at i)
                     = Some (Instance.original_instance_at item)));
    [done|done|].
  intros i Hi [= Ho]. destruct (Hall i Hi) as (_&Hoi&->).
  destruct (Hall item Hin) as (_&Hoit&->). simpl in *. congruence.
Qed.

(** The events answered for the original instance time of a generated
    instance: as many times its overlay as the instance is generated. *)
Lemma series_events_of_instance h db weekStart weekEnd series item :
  item ∈ genWeeklyInstances h series weekStart weekEnd →
  ∃ n,
    filter (fun ev => Event.originalInstanceAt ev
                      = Some (Instance.original_instance_at item))
      (series_events h db weekStart weekEnd series)
    = omap (overlay series (client_by_id db (Series.client_id series))
              (exception_map
                 (filter (fun e => Exception.recurring_series_id e
                                   = Series.id series)
                    (recurring_exceptions db))))
        (replicate (S n) item).
Proof.
  intros Hin.
  destruct (genWeeklyInstances_same_origin _ _ _ _ _ Hin) as [n Hn].
  exists n. unfold series_events.
  rewrite (filter_omap_same_key _
             (fun i => Some (Instance.original_instance_at i))
             Event.originalInstanceAt).
  - by rewrite Hn.
  - intros i ev Hov. by apply overlay_Some in Hov as (_&_&_&_&?).
Qed.

Lemma omap_replicate {A B} (f : A → option B) (n : nat) (x : A) :
  omap f (replicate n x)
  = match f x with Some y => replicate n y | None => [] end.
Proof.
  destruct (f x) as [y|] eqn:Hfx; induction n as [|n IH]; try done.
  - simpl. rewrite Hfx. f_equal. exact IH.
  - simpl. rewrite Hfx. exact IH.
Qed.

(** The array [lines] never holds STATUS:CANCELLED. *)
Lemma ics_lines_never_cancelled db now :
  Forall (fun line => line ≠ "STATUS:CANCELLED"%string) (ics_lines db now).
Proof.
  unfold ics_lines. rewrite !Forall_app. split; [|split].
  - by repeat constructor.
  - apply Forall_forall. intros line Hline.
    apply list_elem_of_In, in_concat in Hline as (block&Hblock&Hline).
    apply list_elem_of_In in Hblock, Hline.
    apply elem_of_lookup_imap in Hblock as (i&row&->&Hrow).
    apply list_elem_of_lookup_2 in Hrow.
    unfold ics_events in Hrow. apply list_elem_of_filter in Hrow as [Hst _].
    unfold vevent in Hline. rewrite bool_decide_eq_false_2 in Hline by done.
    intros Heq. apply (f_equal (String.substring 0 2)) in Heq.
    unfold rrule_line in Hline. simpl in Hline.
    repeat (apply elem_of_cons in Hline as [->|Hline];
            [by lazy in Heq|]).
    repeat case_match;
      repeat (apply elem_of_cons in Hline as [->|Hline];
              [by lazy in Heq|]);
      by apply elem_of_nil in Hline.
  - by repeat constructor.
Qed.

Lemma ics_lines_delimiters db now :
  filter is_delimiter (ics_lines db now)
  = flat_map (fun _ => ["BEGIN:VEVENT"; "END:VEVENT"]%string) (ics_events db).
Proof.
  unfold ics_lines. rewrite !filter_app, filter_concat_imap. simpl.
  rewrite app_nil_r.
  assert (Hblock : ∀ stamp row,
    filter is_delimiter (vevent db stamp row)
    = ["BEGIN:VEVENT"; "END:VEVENT"]%string).
  { intros. unfold vevent, rrule_line. repeat case_match; reflexivity. }
  rewrite (imap_ext _ (fun _ _ => ["BEGIN:VEVENT"; "END:VEVENT"]%string))
    by (intros; apply Hblock).
  induction (ics_events db) as [|row l IH]; [done|].
  simpl. do 2 f_equal. exact IH.
Qed.

(** * The stated properties *)

(** C3. The series with dtstart 2025-10-08 10:00 local time (a Wednesday),
    rule FREQ=WEEKLY;BYDAY=WE, 50 minutes and no bound, asked for the window
    from 2025-10-13 00:00 to 2025-10-19 23:59, yields exactly one instance:
    it starts at 2025-10-15 10:00, ends at 10:50, and its original instance
    time is its start. This holds in every zone of fixed offset. *)
Theorem wednesday_series_second_week tz sid cid :
  getDay (fixed_zone tz Js.ascii_upper) (local_time tz 2025 10 8 10 0) = 3
  ∧ genWeeklyInstances (fixed_zone tz Js.ascii_upper)
      (Series.mk sid cid "FREQ=WEEKLY;BYDAY=WE" (local_time tz 2025 10 8 10 0)
         50 None None)
      (local_time tz 2025 10 13 0 0) (local_time tz 2025 10 19 23 59)
    = [Instance.mk (local_time tz 2025 10 15 10 0)
         (local_time tz 2025 10 15 10 0) (local_time tz 2025 10 15 10 50)].
Proof.
  split.
  - change (local_time tz 2025 10 8 10 0) with (1759917600000 - tz).
    by rewrite getDay_zone.
  - change (local_time tz 2025 10 8 10 0) with (1759917600000 - tz).
    change (local_time tz 2025 10 13 0 0) with (1760313600000 - tz).
    change (local_time tz 2025 10 19 23 59) with (1760918340000 - tz).
    rewrite (genWeeklyInstances_zone tz Js.ascii_upper
               (Series.mk sid cid "FREQ=WEEKLY;BYDAY=WE" 1759917600000 50
                  None None)) by done.
    change (fixed_zone 0 Js.ascii_upper) with utc.
    by rewrite (wednesday_utc_instances sid cid).
Qed.

(** C5. Every instance the generator returns starts inside the window,
    bounds included, and not before the series' dtstart, on every host. *)
Theorem generated_within_window h series weekStart weekEnd :
  Forall (fun i => weekStart ≤ Instance.start_at i ≤ weekEnd
                   ∧ Series.dtstart series ≤ Instance.start_at i)
    (genWeeklyInstances h series weekStart weekEnd).
Proof.
  eapply Forall_impl; [apply genWeeklyInstances_guards|].
  intros i ((?&?&_)&_). auto.
Qed.

(** C6. A rule whose FREQ is absent or is not WEEKLY, and a rule made only
    of pieces without '=' or with keys the generator does not read, makes
    the generator return the empty list, for every series and window and on
    every host; the generator is a total function, so nothing is raised. *)
Theorem unusable_rule_generates_nothing h series weekStart weekEnd :
  parseRRule (toUpperCase h) (Series.rrule series) !! "FREQ"
  ≠ Some "WEEKLY"%string
  ∨ Forall (fun p => malformed p ∨ unknown_key (toUpperCase h) p)
      (Js.split ";" (Series.rrule series)) →
  genWeeklyInstances h series weekStart weekEnd = [].
Proof.
  intros [H|H]; apply genWeeklyInstances_not_weekly; [done|].
  rewrite parseRRule_key_absent; [done|].
  eapply Forall_impl; [exact H|]. intros p [Hp|Hp]; [by left|right].
  intros Heq. apply Hp. rewrite Heq. set_solver.
Qed.

(** C9. When the INTERVAL value of the rule converts to a number that is at
    most 1 (0, negative numbers and fractions included), on every host:
    the generator returns what it returns for the same series with
    INTERVAL=1; and, for a weekly rule on a series without count, it returns
    an instance for every day the loop visits that is not before the local
    midnight of dtstart and shows a weekday of the rule, whenever the start
    of that day's slot passes the tests on the window, dtstart and
    until_at, and it returns nothing else: no week is left out. *)
Theorem interval_at_most_one_is_weekly h series weekStart weekEnd v :
  parseRRule (toUpperCase h) (Series.rrule series) !! "INTERVAL" = Some v →
  at_most_one (Js.Number v) →
  (∀ rule1,
     parseRRule (toUpperCase h) rule1
     = <["INTERVAL" := "1"%string]>
         (parseRRule (toUpperCase h) (Series.rrule series)) →
     genWeeklyInstances h series weekStart weekEnd
     = genWeeklyInstances h (with_rrule series rule1) weekStart weekEnd)
  ∧ (parseRRule (toUpperCase h) (Series.rrule series) !! "FREQ"
     = Some "WEEKLY"%string →
     number_or_null (Series.count series) = None →
     ∀ i, i ∈ genWeeklyInstances h series weekStart weekEnd
          ↔ ∃ c, visited h weekStart weekEnd c
                 ∧ matching_day h series c
                 ∧ admitted series weekStart weekEnd (slot h series c)
                 ∧ i = instance_at series (slot h series c)).
Proof.
  intros Hv Hle.
  assert (Hint : rule_interval h series = Js.of_Z 1).
  { unfold rule_interval. rewrite Hv.
    destruct v as [|c v]; [done|]. by apply max1_at_most_one. }
  split.
  - intros rule1 Hrule. unfold genWeeklyInstances. simpl.
    rewrite Hrule, Hv, lookup_insert_eq, !lookup_insert_ne by done.
    case_bool_decide; [|done].
    rewrite while_loop_with_rrule.
    replace (Js.max1 (Js.Number "1")) with (Js.of_Z 1)
      by (vm_compute; reflexivity).
    destruct v as [|c v]; [done|]. by rewrite (max1_at_most_one _ Hle).
  - intros Hfreq Hcount i.
    assert (Hcand : ∀ c,
      candidate h series weekStart weekEnd (rule_byday h series)
        (rule_interval h series) c = Some i
      ↔ matching_day h series c
        ∧ admitted series weekStart weekEnd (slot h series c)
        ∧ i = instance_at series (slot h series c)).
    { intros c. rewrite candidate_Some, Hint. unfold matching_day.
      assert (Hrem : ∀ w, Js.rem_is_zero w (Js.of_Z 1) = true).
      { intros w. unfold Js.rem_is_zero, Js.of_Z. simpl.
        rewrite Z.mul_1_r, Z.mod_1_r. done. }
      rewrite Hrem. tauto. }
    split.
    + intros (_&c&Hc&Hi)%genWeeklyInstances_elem.
      exists c. split; [done|]. by apply Hcand.
    + intros (c&Hc&Hday&Hadm&Hi).
      apply (genWeeklyInstances_complete h series weekStart weekEnd c);
        try done.
      by apply Hcand.
Qed.

(** C7. The events the week query answers with are in ascending order of
    startAt, and the events of one start time stand in the order in which
    they were collected: the appointment rows first, then the occurrences
    of each series in the order of the series rows. *)
Theorem schedule_week_sorted_stable h db weekStart weekEnd body :
  schedule_week h db (Some weekStart) (Some weekEnd) = Ok body →
  sorted_by_startAt body
  ∧ body ≡ₚ eventList h db weekStart weekEnd
  ∧ ∀ t, starting_at t body
         = starting_at t (map single_event (singles db weekStart weekEnd))
           ++ flat_map
                (fun series =>
                   starting_at t (series_events h db weekStart weekEnd series))
                (seriesRows db weekStart weekEnd).
Proof.
  intros (ws&we&[= <-]&[= <-]&_&_&->)%schedule_week_Ok.
  split; [apply sort_events_sorted|]. split; [apply sort_events_perm|].
  intros t. rewrite sort_events_stable. unfold eventList, starting_at.
  rewrite filter_app. f_equal. apply starting_at_flat_map.
Qed.


(** C4, as the code has it. For every instance generated for a series in a
    week query, on every host: when the exception found for its original
    instance time is 'Canceled', no event of that original instance time is
    answered for the series; with any other exception ('Moved') the
    instance is answered, and every event answered for its original
    instance time has the id '<seriesId>:<originalInstanceAt>', that
    original instance time, the status 'Scheduled', and as startAt and
    endAt the exception's new times where these are neither null nor 0 and
    the generated times otherwise; without an exception the instance is
    answered in the same way with the generated times. *)
Theorem exception_overlay_of_instance h db weekStart weekEnd series item :
  item ∈ genWeeklyInstances h series weekStart weekEnd →
  let at_ := Instance.original_instance_at item in
  let mapEx :=
    exception_map
      (filter (fun e => Exception.recurring_series_id e = Series.id series)
         (recurring_exceptions db)) in
  let shown :=
    filter (fun ev => Event.originalInstanceAt ev = Some at_)
      (series_events h db weekStart weekEnd series) in
  match mapEx !! at_ with
  | Some ex =>
      if decide (Exception.status ex = "Canceled"%string) then shown = []
      else shown ≠ []
           ∧ Forall
               (fun ev =>
                  Event.id ev = virtual_id series at_
                  ∧ Event.originalInstanceAt ev = Some at_
                  ∧ Event.status ev = "Scheduled"%string
                  ∧ Event.startAt ev
                    = moved_time (Exception.new_start_at ex)
                        (Instance.start_at item)
                  ∧ Event.endAt ev
                    = moved_time (Exception.new_end_at ex)
                        (Instance.end_at item))
               shown
  | None =>
      shown ≠ []
      ∧ Forall
          (fun ev =>
             Event.id ev = virtual_id series at_
             ∧ Event.originalInstanceAt ev = Some at_
             ∧ Event.status ev = "Scheduled"%string
             ∧ Event.startAt ev = Instance.start_at item
             ∧ Event.endAt ev = Instance.end_at item)
          shown
  end.
Proof.
  intros Hin at_ mapEx shown.
  destruct (series_events_of_instance h db weekStart weekEnd series item Hin)
    as [n Hshown].
  fold at_ mapEx shown in Hshown. rewrite omap_replicate in Hshown.
  unfold overlay in Hshown. fold at_ in Hshown.
  destruct (mapEx !! at_) as [ex|] eqn:Hex; cbn [fmap option_fmap option_map]
    in Hshown.
  - destruct (decide (Exception.status ex = "Canceled"%string)) as [Hc|Hc].
    + by rewrite bool_decide_eq_true_2 in Hshown by congruence.
    + rewrite bool_decide_eq_false_2 in Hshown by congruence.
      rewrite Hshown. split; [done|].
      apply (Forall_replicate _ (S n)). simpl.
      by rewrite !or_num_moved_time.
  - rewrite bool_decide_eq_false_2 in Hshown by done.
    rewrite Hshown. split; [done|]. by apply (Forall_replicate _ (S n)).
Qed.


(** C2, as the code has it. When both bounds are numbers other than 0 and
    the window is inverted, the week query answers 200 with an empty list;
    it answers 400 exactly when a bound is missing, not numeric or 0. *)
Theorem inverted_window_is_empty h db weekStart weekEnd :
  weekStart ≠ 0 → weekEnd ≠ 0 → weekEnd < weekStart →
  schedule_week h db (Some weekStart) (Some weekEnd) = Ok []
  ∧ ∀ lower upper,
      (∃ error, schedule_week h db lower upper = BadRequest error)
      ↔ lower = None ∨ lower = Some 0 ∨ upper = None ∨ upper = Some 0.
Proof.
  intros Hs He Hinv. split; [|apply schedule_week_BadRequest].
  unfold schedule_week.
  destruct (Z.eqb_spec weekStart 0), (Z.eqb_spec weekEnd 0); try done.
  simpl. by rewrite eventList_inverted.
Qed.

(** C8, as the code has it. When client ids are unique, every
    appointment's client exists, and no appointment id, client name or rule
    holds a line break, the lines of the text sent are the elements of the
    array the handler builds (and an empty piece after the last CR LF).
    Among these lines there is one BEGIN:VEVENT for each stored appointment
    whose status is not 'Canceled', and their UID lines are those of these
    appointments, in row order: none for a canceled appointment. The block
    of an appointment whose non-empty recurring_series_id names a stored
    series with a non-empty rule holds exactly one RRULE line, 'RRULE:'
    followed by that rule; every other block holds no RRULE line. *)
Theorem ics_export_events db now :
  store_keys db → one_line_store db →
  text_lines (ics db now)
  = ["BEGIN:VCALENDAR"; "VERSION:2.0"; "PRODID:-//Counseling CRM//CN";
     "CALSCALE:GREGORIAN"]%string
    ++ concat (imap (fun i row => vevent db (now i) row) (ics_events db))
    ++ ["END:VCALENDAR"; ""]%string
  ∧ length (filter is_begin_vevent (text_lines (ics db now)))
    = length (filter not_canceled (appointments db))
  ∧ filter is_uid_line (text_lines (ics db now))
    = map uid_line (filter not_canceled (appointments db))
  ∧ ∀ stamp row,
      let rrules := filter is_rrule_line (vevent db stamp row) in
      match Appointment.recurring_series_id row.1 with
      | Some sid =>
          match series_by_id db sid with
          | Some series =>
              if decide (sid = EmptyString ∨ Series.rrule series = EmptyString)
              then rrules = []
              else rrules = ["RRULE:" +:+ Series.rrule series]
          | None => rrules = []
          end
      | None => rrules = []
      end.
Proof.
  intros Hkeys Hlines. rewrite (text_lines_ics db now Hlines).
  split; [|split; [|split]].
  - unfold ics_lines. by rewrite <- !app_assoc.
  - rewrite filter_app, app_nil_r.
    rewrite ics_begin_lines, length_map, <- (ics_events_rows db Hkeys).
    by rewrite length_map.
  - rewrite filter_app, app_nil_r.
    by rewrite ics_uid_lines, ics_events_rows.
  - intros stamp row rrules. unfold rrules.
    rewrite vevent_rrule_lines. unfold rrule_line.
    destruct (Appointment.recurring_series_id row.1) as [[|c sid]|]; [| |done].
    + destruct (series_by_id db EmptyString); [|done].
      case_decide as Hd; [done|]. destruct Hd. by left.
    + destruct (series_by_id db (String c sid)) as [series|]; [|done].
      destruct (Series.rrule series) as [|r rule]; case_decide as Hd.
      * done.
      * destruct Hd. by right.
      * by destruct Hd.
      * done.
Qed.

(** * Concrete runs *)


(** C2 fails as stated: a window whose bounds are numbers and inverted is
    answered with status 200 and an empty list. *)
Lemma inverted_window_answers_200 :
  1759708800000 < 1760313540000
  ∧ schedule_week utc (sample_db "FREQ=WEEKLY;BYDAY=WE" [])
      (Some 1760313540000) (Some 1759708800000)
    = Ok [].
Proof. split; [lia|]. vm_compute. reflexivity. Qed.

(** C4 fails as stated: a 'Moved' exception whose new_start_at is 0 leaves
    the occurrence at its generated start, 2025-10-15 10:00. *)
Lemma move_to_epoch_keeps_generated_start :
  Exception.status epoch_move = "Moved"%string
  ∧ Exception.new_start_at epoch_move = Some 0
  ∧ schedule_week utc (sample_db "FREQ=WEEKLY;BYDAY=WE" [epoch_move])
      (Some 1760313600000) (Some 1760918340000)
    = Ok [Event.mk "s1:1760522400000" "recurring" "c1" "Ann" 1760522400000
            3000000 "Scheduled" (Some "s1"%string) (Some 1760522400000)].
Proof. split; [|split]; vm_compute; reflexivity. Qed.

(** C8 fails as stated: the anchor of a series whose stored rule is the
    empty string is exported without an RRULE line; and an appointment whose
    client row is missing is not exported at all. *)
Lemma empty_rule_exports_no_rrule :
  (Appointment.recurring_series_id wednesday_anchor = Some "s1"%string
   ∧ series_by_id (sample_db "" []) "s1" = Some (wednesday_series "")
   ∧ ics_lines (sample_db "" []) (fun _ => 1760522400000)
     = ["BEGIN:VCALENDAR"; "VERSION:2.0"; "PRODID:-//Counseling CRM//CN";
        "CALSCALE:GREGORIAN"; "BEGIN:VEVENT"; "UID:a1@local";
        "DTSTAMP:20251015T100000Z"; "DTSTART:20251008T100000Z";
        "DTEND:20251008T105000Z"; "SUMMARY:Ann"; "END:VEVENT";
        "END:VCALENDAR"]%string)
  ∧ (appointments orphan_db = [wednesday_anchor]
     ∧ ics_lines orphan_db (fun _ => 1760522400000)
       = ["BEGIN:VCALENDAR"; "VERSION:2.0"; "PRODID:-//Counseling CRM//CN";
          "CALSCALE:GREGORIAN"; "END:VCALENDAR"]%string).
Proof. repeat split; vm_compute; reflexivity. Qed.

Lemma sample_db_keys rule exceptions : store_keys (sample_db rule exceptions).
Proof.
  split; simpl.
  - apply NoDup_singleton.
  - intros a ->%list_elem_of_singleton. eexists. split; [by left|done].
Qed.

Lemma sample_db_one_line rule exceptions :
  one_line rule → one_line_store (sample_db rule exceptions).
Proof.
  intros Hrule. split; simpl.
  - intros a ->%list_elem_of_singleton. by repeat constructor.
  - intros c ->%list_elem_of_singleton. by repeat constructor.
  - by intros s ->%list_elem_of_singleton.
Qed.

(** Under daylight saving the day of the change back is visited twice: in
    New York the Sunday series of 10:00 is generated twice for 2025-11-02,
    a day of 25 hours, and the week query answers two virtual occurrences
    of one id. *)
Example autumn_day_visited_twice :
  map Instance.start_at
    (genWeeklyInstances new_york_2025
       (Series.mk "s1" "c1" "FREQ=WEEKLY" 1761487200000 50 None None)
       1761537600000 1762750740000)
  = [1762095600000; 1762095600000; 1762700400000]
  ∧ match
      schedule_week new_york_2025
        {| clients := [Client.mk "c1" "Ann"];
           appointments := [];
           recurring_series :=
             [Series.mk "s1" "c1" "FREQ=WEEKLY" 1761487200000 50 None None];
           recurring_exceptions := [] |}
        (Some 1761537600000) (Some 1762750740000)
    with
    | Ok body => map Event.id body
    | BadRequest _ => []
    end
    = ["s1:1762095600000"; "s1:1762095600000"; "s1:1762700400000"]%string.
Proof. split; vm_compute; reflexivity. Qed.

(** Under daylight saving the weeks are counted from a midnight an hour
    off: in New York the fortnightly series of Wednesday 2025-01-08 10:00,
    asked from 2025-03-17, yields 2025-03-26, eleven weeks on, and not
    2025-03-19; asked from 2025-03-03 it yields 2025-03-05 and
    2025-03-19. *)
Example spring_change_shifts_the_weeks :
  map Instance.start_at
    (genWeeklyInstances new_york_2025
       (Series.mk "s1" "c1" "FREQ=WEEKLY;INTERVAL=2" 1736348400000 50 None
          None)
       1742184000000 1743393540000)
  = [1742997600000]
  ∧ map Instance.start_at
      (genWeeklyInstances new_york_2025
         (Series.mk "s1" "c1" "FREQ=WEEKLY;INTERVAL=2" 1736348400000 50 None
            None)
         1740978000000 1743393540000)
    = [1741186800000; 1742392800000].
Proof. split; vm_compute; reflexivity. Qed.

(** A client name that holds line breaks puts lines of its own into the
    text sent: one appointment, two BEGIN:VEVENT lines and a
    STATUS:CANCELLED line. *)
Example line_break_in_name_forges_lines :
  length (appointments forged_db) = 1%nat
  ∧ filter is_delimiter (ics_lines forged_db (fun _ => 1760522400000))
    = ["BEGIN:VEVENT"; "END:VEVENT"]%string
  ∧ filter is_delimiter (text_lines (ics forged_db (fun _ => 1760522400000)))
    = ["BEGIN:VEVENT"; "END:VEVENT"; "BEGIN:VEVENT"; "END:VEVENT"]%string
  ∧ filter (String.eqb "STATUS:CANCELLED")
      (text_lines (ics forged_db (fun _ => 1760522400000)))
    = ["STATUS:CANCELLED"%string].
Proof. repeat split; vm_compute; reflexivity. Qed.


(** C2: the theorem at an inverted window over the sample store. *)
Lemma inverted_window_is_empty_witness :
  schedule_week utc (sample_db "FREQ=WEEKLY;BYDAY=WE" [thursday_move])
    (Some 1760918340000) (Some 1760313600000)
  = Ok [].
Proof.
  apply (inverted_window_is_empty utc
           (sample_db "FREQ=WEEKLY;BYDAY=WE" [thursday_move])
           1760918340000 1760313600000); lia.
Defined.

(** C6: the theorem at a rule of another frequency and at a rule without
    any usable pair. *)
Lemma unusable_rule_witness :
  genWeeklyInstances utc (wednesday_series "FREQ=DAILY;BYDAY=WE")
    1760313600000 1760918340000 = []
  ∧ genWeeklyInstances utc (wednesday_series "WEEKLY;COLOR=RED")
      1760313600000 1760918340000 = [].
Proof.
  split; apply unusable_rule_generates_nothing.
  - left. vm_compute. discriminate.
  - right. constructor; [left|constructor; [right|constructor]].
    + unfold malformed. apply (bool_decide_unpack _). vm_compute. exact I.
    + unfold unknown_key. apply (bool_decide_unpack _). vm_compute. exact I.
Defined.

(** C7: the theorem at the two weeks from 2025-10-06 of the sample store. *)
Lemma schedule_week_sorted_witness :
  sorted_by_startAt
    (sort_events
       (eventList utc (sample_db "FREQ=WEEKLY;BYDAY=WE" [thursday_move])
          1759708800000 1760918340000)).
Proof.
  apply (schedule_week_sorted_stable utc
           (sample_db "FREQ=WEEKLY;BYDAY=WE" [thursday_move])
           1759708800000 1760918340000).
  reflexivity.
Defined.

(** C9: the theorem at INTERVAL=0: the result is that of INTERVAL=1, and
    it holds the occurrence of the second week, made of the day
    2025-10-15, the third the loop visits. *)
Lemma interval_zero_witness :
  genWeeklyInstances utc (wednesday_series "FREQ=WEEKLY;INTERVAL=0")
    1760313600000 1760918340000
  = genWeeklyInstances utc
      (with_rrule (wednesday_series "FREQ=WEEKLY;INTERVAL=0")
         "FREQ=WEEKLY;INTERVAL=1")
      1760313600000 1760918340000
  ∧ Instance.mk 1760522400000 1760522400000 1760525400000
    ∈ genWeeklyInstances utc (wednesday_series "FREQ=WEEKLY;INTERVAL=0")
        1760313600000 1760918340000.
Proof.
  destruct (interval_at_most_one_is_weekly utc
              (wednesday_series "FREQ=WEEKLY;INTERVAL=0")
              1760313600000 1760918340000 "0") as [Hsame Hevery].
  - vm_compute. reflexivity.
  - vm_compute. discriminate.
  - split; [apply Hsame; vm_compute; reflexivity|].
    apply Hevery; [vm_compute; reflexivity|reflexivity|].
    exists 1760486400000. split_and!.
    + exists 2. split; [lia|]. split; [reflexivity|lia].
    + split; [vm_compute; discriminate|vm_compute; reflexivity].
    + split; [split; vm_compute; discriminate|].
      split; [vm_compute; discriminate|exact I].
    + reflexivity.
Defined.

(** C4: the theorem at the occurrence of 2025-10-15 and its move to
    2025-10-16 14:00: the occurrence is answered, under its id and with the
    new times. *)
Lemma exception_overlay_witness :
  filter (fun ev => Event.originalInstanceAt ev = Some 1760522400000)
    (series_events utc (sample_db "FREQ=WEEKLY;BYDAY=WE" [thursday_move])
       1760313600000 1760918340000 (wednesday_series "FREQ=WEEKLY;BYDAY=WE"))
  ≠ []
  ∧ Forall
      (fun ev => Event.id ev = "s1:1760522400000"%string
                 ∧ Event.startAt ev = 1760623200000
                 ∧ Event.endAt ev = 1760626200000)
      (filter (fun ev => Event.originalInstanceAt ev = Some 1760522400000)
         (series_events utc (sample_db "FREQ=WEEKLY;BYDAY=WE" [thursday_move])
            1760313600000 1760918340000
            (wednesday_series "FREQ=WEEKLY;BYDAY=WE"))).
Proof.
  pose proof (exception_overlay_of_instance utc
                (sample_db "FREQ=WEEKLY;BYDAY=WE" [thursday_move])
                1760313600000 1760918340000
                (wednesday_series "FREQ=WEEKLY;BYDAY=WE")
                (Instance.mk 1760522400000 1760522400000 1760525400000)) as H.
  cbv zeta in H.
  replace (exception_map _ !! _) with (Some thursday_move) in H
    by (vm_compute; reflexivity).
  destruct H as [Hshown Hall].
  - vm_compute. left.
  - split; [exact Hshown|].
    eapply Forall_impl; [exact Hall|].
    intros ev (Hid&_&_&Hs&He). split; [exact Hid|]. by split.
Defined.

(** C8: the theorem at the sample store: the text holds one VEVENT, that
    of the anchor. *)
Lemma ics_export_witness :
  filter is_uid_line
    (text_lines
       (ics (sample_db "FREQ=WEEKLY;BYDAY=WE" []) (fun _ => 1760522400000)))
  = ["UID:a1@local"%string].
Proof.
  refine (proj1 (proj2 (proj2 (ics_export_events
                         (sample_db "FREQ=WEEKLY;BYDAY=WE" [])
                         (fun _ => 1760522400000)
                         (sample_db_keys "FREQ=WEEKLY;BYDAY=WE" [])
                         (sample_db_one_line "FREQ=WEEKLY;BYDAY=WE" [] _))))).
  by repeat constructor.
Defined.


(** * Further properties of the engine *)

(** X1. In a server zone of constant UTC offset, every instance the
    generator returns is an occurrence of the series in the window: in the
    window and not before dtstart, at the hour and minute of dtstart with no
    seconds, on a weekday of the rule, a multiple of the interval in whole
    weeks from the day of dtstart, not past a non-zero until_at; its
    original instance time is its start and its end is the start plus
    duration_min minutes (50 when that is 0). *)
Theorem generated_are_occurrences tz upper series weekStart weekEnd :
  Forall (fun i => i = instance_at series (Instance.start_at i)
                   ∧ occurs tz upper series weekStart weekEnd
                       (Instance.start_at i))
    (genWeeklyInstances (fixed_zone tz upper) series weekStart weekEnd).
Proof.
  apply Forall_forall. intros i Hi.
  apply genWeeklyInstances_sound in Hi as (?&_&?). by split.
Qed.

(** X2. In a server zone of constant UTC offset and without a count (null
    or 0), no occurrence in the window is missed. *)
Theorem occurrence_is_generated tz upper series weekStart weekEnd t :
  number_or_null (Series.count series) = None →
  occurs tz upper series weekStart weekEnd t →
  instance_at series t
  ∈ genWeeklyInstances (fixed_zone tz upper) series weekStart weekEnd.
Proof.
  intros Hcount Hocc. apply genWeeklyInstances_occurs; [done|]. by exists t.
Qed.


(** X4. A count other than 0 cuts the result after the first count
    occurrences found in the window of the call, wherever the window lies; a
    negative count leaves nothing. This holds on every host. *)
Theorem count_caps_the_window h series weekStart weekEnd :
  genWeeklyInstances h series weekStart weekEnd
  = match number_or_null (Series.count series) with
    | Some c =>
        take (Z.to_nat c)
          (genWeeklyInstances h (without_count series) weekStart weekEnd)
    | None => genWeeklyInstances h (without_count series) weekStart weekEnd
    end.
Proof.
  rewrite (genWeeklyInstances_capped h series). unfold capped.
  case_match; [|done]. by rewrite Z.sub_0_r.
Qed.

(** X5. In a server zone of constant UTC offset and without a count, the
    instances of a window inside another one are those of the larger window
    that start inside the smaller. *)
Theorem sub_window_is_a_filter tz upper series weekStart weekEnd from to :
  number_or_null (Series.count series) = None →
  weekStart ≤ from → to ≤ weekEnd →
  genWeeklyInstances (fixed_zone tz upper) series from to
  = filter (fun i => from ≤ Instance.start_at i ≤ to)
      (genWeeklyInstances (fixed_zone tz upper) series weekStart weekEnd).
Proof.
  intros Hcount Hfrom Hto. apply strictly_ascending_unique.
  - apply genWeeklyInstances_inv.
  - apply (StronglySorted_sublist _ _ _ (sublist_filter _ _)),
      genWeeklyInstances_inv.
  - intros i. rewrite list_elem_of_filter, !genWeeklyInstances_occurs by done.
    unfold occurs. split.
    + intros (t&->&?&?&?). split; [simpl; lia|]. exists t. split; [done|].
      split_and!; tauto || lia.
    + intros [Hin (t&->&?&?&?)]. simpl in Hin. exists t. split; [done|].
      split_and!; tauto || lia.
Qed.

(** X6. In a server zone of constant UTC offset, a weekly rule without
    BYDAY, of integral interval n, on a series without until_at and count
    whose dtstart has no seconds, yields exactly the times dtstart + k * n
    weeks (k = 0, 1, ...) that lie in the window. The rule is read with the
    case mapping of the host, whatever it is. *)
Theorem weekly_rule_every_n_weeks tz upper series weekStart weekEnd n i :
  parseRRule upper (Series.rrule series) !! "FREQ" = Some "WEEKLY"%string →
  parseRRule upper (Series.rrule series) !! "BYDAY" = None →
  rule_interval (fixed_zone tz upper) series = Js.of_Z n → 1 ≤ n →
  (Series.dtstart series + tz) mod 60000 = 0 →
  number_or_null (Series.until_at series) = None →
  number_or_null (Series.count series) = None →
  i ∈ genWeeklyInstances (fixed_zone tz upper) series weekStart weekEnd
  ↔ ∃ k, 0 ≤ k
       ∧ weekStart ≤ Series.dtstart series + k * (n * (7 * dayMs)) ≤ weekEnd
       ∧ i = instance_at series
               (Series.dtstart series + k * (n * (7 * dayMs))).
Proof.
  intros Hfreq Hbyday Hint Hn Hdt Huntil Hcount.
  rewrite genWeeklyInstances_occurs by done. split.
  - intros (t&->&Hocc).
    apply (occurs_every_n_weeks _ _ _ _ _ n) in Hocc as (Hwin&k&Hk&->);
      try done.
    by exists k.
  - intros (k&Hk&Hwin&->). eexists. split; [done|].
    apply (occurs_every_n_weeks _ _ _ _ _ n); try done.
    split; [done|]. by exists k.
Qed.

(** X7. For a series without until_at, in the zones of constant offset the
    generator depends on wall-clock times only: in the zone of offset tz it
    yields, for the series and the window read at that offset, the
    instances it yields in UTC, read at that offset. *)
Theorem generation_is_zone_independent tz upper series weekStart weekEnd :
  Series.until_at series = None →
  genWeeklyInstances (fixed_zone tz upper) (zone_series tz series)
    (weekStart - tz) (weekEnd - tz)
  = map (zone_instance tz)
      (genWeeklyInstances (fixed_zone 0 upper) series weekStart weekEnd).
Proof. apply genWeeklyInstances_zone. Qed.

(** X8. A pair KEY=VALUE appended to a rule string after ';' sets that key,
    read in upper case, to the value, and leaves the other keys as they
    were: keys are case-insensitive and a later pair replaces an earlier one
    of the same key. This holds for every case mapping. *)
Theorem appended_pair_sets_key upper rrule k v :
  k ≠ EmptyString → v ≠ EmptyString →
  Forall (fun c => c ≠ ";"%char ∧ c ≠ "="%char) (String.list_ascii_of_string k) →
  Forall (fun c => c ≠ ";"%char ∧ c ≠ "="%char) (String.list_ascii_of_string v) →
  parseRRule upper (rrule +:+ String ";" (k +:+ String "=" v))
  = <[upper k := v]> (parseRRule upper rrule).
Proof.
  intros Hk Hv Hkc Hvc. rewrite Forall_forall in Hkc, Hvc.
  rewrite parseRRule_append.
  - apply parse_piece_pair; [done|done|..]; intros Hin;
      [by destruct (Hkc _ Hin)|by destruct (Hvc _ Hin)].
  - apply not_in_append; [intros Hin; by destruct (Hkc _ Hin)|].
    simpl. apply not_elem_of_cons. split; [done|].
    intros Hin. by destruct (Hvc _ Hin).
Qed.

(** X9. With the case mapping of the ASCII letters, the parser never stores
    an empty key or value, and every key it stores is in upper case: a key
    is found only under its upper-case spelling. *)
Theorem parsed_keys_are_upper_case rrule key v :
  parseRRule Js.ascii_upper rrule !! key = Some v →
  key ≠ EmptyString ∧ v ≠ EmptyString ∧ Js.ascii_upper key = key.
Proof.
  unfold parseRRule.
  assert (Hgen : ∀ l (m : gmap string string),
    (∀ k x, m !! k = Some x →
            k ≠ EmptyString ∧ x ≠ EmptyString ∧ Js.ascii_upper k = k) →
    ∀ k x, foldl (parse_piece Js.ascii_upper) m l !! k = Some x →
           k ≠ EmptyString ∧ x ≠ EmptyString ∧ Js.ascii_upper k = k).
  { induction l as [|p l IH]; intros m Hm; [done|].
    simpl. apply IH. unfold parse_piece.
    destruct (Js.split "=" p) as [|[|a k0] [|[|b v0] rest]]; try done.
    intros k x. destruct (decide (Js.ascii_upper (String a k0) = k)) as [<-|Hne].
    - rewrite lookup_insert_eq. intros [= <-].
      split; [done|]. split; [done|]. apply ascii_upper_idemp.
    - rewrite lookup_insert_ne by done. apply Hm. }
  apply Hgen. intros k x. by rewrite lookup_empty.
Qed.

(** X10. In a server zone of constant UTC offset, in an answer of the week
    query every appointment row starts in the window, and every virtual
    occurrence is 'Scheduled', carries the id
    '<seriesId>:<originalInstanceAt>' of a stored series, and has an
    original instance time that is an occurrence of that series in the
    window, wherever an exception has moved its start. *)
Theorem week_events_in_window tz upper db weekStart weekEnd body :
  schedule_week (fixed_zone tz upper) db (Some weekStart) (Some weekEnd)
  = Ok body →
  Forall
    (fun ev =>
       (Event.source ev = "single"%string
        ∧ weekStart ≤ Event.startAt ev ≤ weekEnd)
       ∨ (Event.source ev = "recurring"%string
          ∧ Event.status ev = "Scheduled"%string
          ∧ ∃ series at_,
              series ∈ recurring_series db
              ∧ Event.id ev = virtual_id series at_
              ∧ Event.recurringSeriesId ev = Some (Series.id series)
              ∧ Event.originalInstanceAt ev = Some at_
              ∧ occurs tz upper series weekStart weekEnd at_))
    body.
Proof.
  intros (ws&we&[= <-]&[= <-]&_&_&->)%schedule_week_Ok.
  rewrite sort_events_perm. unfold eventList.
  apply Forall_app. split; apply Forall_forall; intros ev Hev.
  - left. apply list_elem_of_fmap in Hev as (row&->&Hrow).
    unfold singles in Hrow. apply list_elem_of_filter in Hrow as [Hwin _].
    by split.
  - right. apply list_elem_of_In, in_flat_map in Hev as (series&Hs&Hev).
    apply list_elem_of_In in Hs, Hev.
    unfold seriesRows in Hs. apply list_elem_of_filter in Hs as [_ Hs].
    unfold series_events in Hev.
    apply list_elem_of_omap in Hev as (item&Hitem&Hov).
    apply overlay_Some in Hov as (Hid&Hsrc&Hst&Hsid&Horig).
    apply genWeeklyInstances_sound in Hitem as (_&Heq&Hocc).
    split; [done|]. split; [done|].
    exists series, (Instance.original_instance_at item).
    split_and!; try done. by rewrite Heq.
Qed.

(** X11. When no stored series has until_at 0, the WHERE clause of the
    week query drops only series without an instance in the window: the
    virtual occurrences are those of all stored series. This holds on every
    host. *)
Theorem series_filter_drops_nothing h db weekStart weekEnd :
  Forall (fun s => Series.until_at s ≠ Some 0) (recurring_series db) →
  flat_map (series_events h db weekStart weekEnd)
    (seriesRows db weekStart weekEnd)
  = flat_map (series_events h db weekStart weekEnd) (recurring_series db).
Proof.
  unfold seriesRows.
  induction (recurring_series db) as [|s l IH]; [done|].
  intros [Hs Hl]%Forall_cons. rewrite filter_cons. simpl.
  case_decide as Hin; simpl; rewrite IH by done; [done|].
  unfold series_events at 2.
  rewrite series_outside_window; [done|done|].
  by apply Is_true_false_1.
Qed.

(** X12. In a server zone of constant UTC offset, the virtual occurrences
    of one series in one answer have pairwise different ids. *)
Theorem virtual_ids_distinct tz upper db weekStart weekEnd series :
  NoDup (map Event.id
           (series_events (fixed_zone tz upper) db weekStart weekEnd series)).
Proof.
  unfold series_events.
  apply (NoDup_omap_key _ Instance.original_instance_at Event.id
           (virtual_id series)).
  - intros a b. apply virtual_id_inj.
  - intros item ev Hov. by apply overlay_Some in Hov as (?&_).
  - apply genWeeklyInstances_origins_distinct.
Qed.

(** X13. When no appointment id, client name or rule holds a line break,
    no line of the text sent is STATUS:CANCELLED: canceled appointments are
    left out when the rows are read, so the line the loop would push for
    them is never pushed. *)
Theorem export_never_marks_cancelled db now :
  one_line_store db →
  Forall (fun line => line ≠ "STATUS:CANCELLED"%string)
    (text_lines (ics db now)).
Proof.
  intros Hdb. rewrite (text_lines_ics db now Hdb).
  apply Forall_app. split; [apply ics_lines_never_cancelled|].
  by repeat constructor.
Qed.


(** X15. In the text sent, every line of the array, the last one
    included, is followed by CR LF. *)
Theorem ics_lines_end_in_crlf db now :
  ics db now
  = foldr (fun line rest => line +:+ CRLF +:+ rest) "" (ics_lines db now).
Proof. unfold ics. by apply join_terminated. Qed.

(** X16. When no appointment id, client name or rule holds a line break,
    the BEGIN:VEVENT and END:VEVENT lines of the text sent alternate, one
    pair for each exported row: events are never nested and never left
    open. *)
Theorem vevents_are_well_nested db now :
  one_line_store db →
  filter is_delimiter (text_lines (ics db now))
  = flat_map (fun _ => ["BEGIN:VEVENT"; "END:VEVENT"]%string) (ics_events db).
Proof.
  intros Hdb. rewrite (text_lines_ics db now Hdb).
  by rewrite filter_app, app_nil_r, ics_lines_delimiters.
Qed.

(** X17. The store that any sequence of requests to POST /api/clients,
    POST /api/appointments and PATCH /api/appointments/:id leaves, starting
    from the empty tables, has unique client ids and a client row for every
    appointment, although SQLite is not asked to enforce the foreign key. *)
Theorem reachable_store_keys db :
  reachable db → store_keys db.
Proof.
  intros Hinv%reachable_inv. split; [by apply Hinv|].
  intros a Ha. pose proof (inv_appointment_client db Hinv a Ha) as Hc.
  apply list_elem_of_fmap in Hc as (c&Hid&Hc). by exists c.
Qed.

(** X18. In such a store an appointment that names a series names a stored
    one, of the same client, which the lookup by id finds; and no two
    appointments name the same series. *)
Theorem reachable_series_links db :
  reachable db →
  (∀ a sid, a ∈ appointments db →
            Appointment.recurring_series_id a = Some sid →
            ∃ s, series_by_id db sid = Some s
                 ∧ Series.client_id s = Appointment.client_id a)
  ∧ NoDup (omap Appointment.recurring_series_id (appointments db)).
Proof.
  intros Hinv%reachable_inv. split; [|by apply Hinv].
  intros a sid Ha Hsid.
  destruct (inv_appointment_series db Hinv a sid Ha Hsid) as (s&Hs&<-&Hc).
  exists s. split; [|done].
  apply (head_filter_unique Series.id); [by apply Hinv|done].
Qed.

(** X19. Every exception row such a store holds is a 'Moved' one with both
    new times set, for a stored series: no request writes a 'Canceled'
    exception. *)
Theorem reachable_exceptions_are_moves db :
  reachable db →
  Forall
    (fun e => Exception.status e = "Moved"%string
              ∧ is_Some (Exception.new_start_at e)
              ∧ is_Some (Exception.new_end_at e)
              ∧ is_Some (series_by_id db (Exception.recurring_series_id e)))
    (recurring_exceptions db).
Proof.
  intros Hinv%reachable_inv. apply Forall_forall. intros e He.
  destruct (inv_exception_series db Hinv e He) as (Hs&?&?&?).
  split_and!; try done.
  apply list_elem_of_fmap in Hs as (s&->&Hs). exists s.
  apply (head_filter_unique Series.id); [by apply Hinv|done].
Qed.

(** X20. Hence the week view of such a store suppresses no occurrence:
    the virtual events of a series are, in order, its generated
    instances. *)
Theorem no_occurrence_is_suppressed h db weekStart weekEnd series :
  reachable db →
  map Event.originalInstanceAt (series_events h db weekStart weekEnd series)
  = map (fun item => Some (Instance.original_instance_at item))
      (genWeeklyInstances h series weekStart weekEnd).
Proof.
  intros Hinv%reachable_inv. unfold series_events.
  apply map_omap_total.
  - intros item. apply (overlay_keeps db); [done|].
    by intros e [_ ?]%list_elem_of_filter.
  - intros item ev Hev. by apply overlay_Some in Hev as (_&_&_&_&->).
Qed.

(** X21. An appointment that POST /api/appointments has created is listed
    by the week query for any window that holds its start: as a 'single'
    event with the new id, the requested start, the end durationMin (50 by
    default) minutes later, and status 'Scheduled'. *)
Theorem created_appointment_is_listed h db seriesId id body db' note t
    weekStart weekEnd events :
  post_appointment db seriesId id body = Wrote db' note →
  NewAppointment.startAt body = Some t →
  weekStart ≤ t ≤ weekEnd →
  schedule_week h db' (Some weekStart) (Some weekEnd) = Ok events →
  ∃ ev, ev ∈ events
        ∧ Event.id ev = id
        ∧ Event.source ev = "single"%string
        ∧ Event.startAt ev = t
        ∧ Event.endAt ev
          = t + default 50 (NewAppointment.durationMin body) * 60000
        ∧ Event.status ev = "Scheduled"%string.
Proof.
  intros Hpost Hstart Hwin (ws&we&[= <-]&[= <-]&_&_&->)%schedule_week_Ok.
  unfold post_appointment in Hpost. cbv zeta in Hpost.
  rewrite Hstart in Hpost. simpl default in Hpost.
  destruct (negb (truthy_str (NewAppointment.clientId body)) || _);
    [done|].
  destruct (bool_decide (client_by_id db _ = None)) eqn:Hnone; [done|].
  apply bool_decide_eq_false in Hnone.
  destruct (client_by_id db _) as [c|] eqn:Hc; [clear Hnone|done].
  apply head_filter_elem_of in Hc as [Hcin Hcid].
  set (row := Appointment.mk id
                (default ""%string (NewAppointment.clientId body)) t
                (t + default 50 (NewAppointment.durationMin body) * 60 * 1000)
                "Scheduled" _ None) in Hpost.
  assert (Hrow : ∃ sid,
    (Appointment.mk id (default ""%string (NewAppointment.clientId body)) t
       (t + default 50 (NewAppointment.durationMin body) * 60 * 1000)
       "Scheduled" sid None, Client.name c)
    ∈ appointments_join_clients db').
  { destruct (NewAppointment.recurring body) as [recurring|].
    - destruct (bool_decide (seriesId ∈ _)); [done|]. simpl in Hpost.
      destruct (bool_decide (id ∈ _)); [done|]. injection Hpost as <- _.
      exists (Some seriesId). apply join_row; simpl; [|done..].
      apply elem_of_app. right. left.
    - destruct (bool_decide (id ∈ _)); [done|]. injection Hpost as <- _.
      exists None. apply join_row; simpl; [|done..].
      apply elem_of_app. right. left. }
  destruct Hrow as [sid Hrow].
  exists (single_event
            (Appointment.mk id
               (default ""%string (NewAppointment.clientId body)) t
               (t + default 50 (NewAppointment.durationMin body) * 60 * 1000)
               "Scheduled" sid None, Client.name c)).
  split; [|simpl; split_and!; try done; lia].
  rewrite sort_events_perm. unfold eventList. apply elem_of_app. left.
  apply (list_elem_of_fmap_2 single_event). unfold singles.
  by apply list_elem_of_filter.
Qed.

(** X22. A PATCH that carries a start or an end for an appointment of a
    series, in scope 'this' or 'series', writes no status: the status of
    every appointment stays as it was, whatever status the request
    names. *)
Theorem time_edit_keeps_status db exId id body appt db' :
  appointment_by_id db id = Some appt →
  truthy_str (Appointment.recurring_series_id appt) = true →
  truthy_num (Patch.startAt body) || truthy_num (Patch.endAt body) = true →
  default "this"%string (Patch.scope body) ∈ ["this"; "series"]%string →
  left_by (patch_appointment db exId id body) = Some db' →
  map Appointment.status (appointments db')
  = map Appointment.status (appointments db).
Proof.
  intros Happt Hrec Htimed Hscope. unfold patch_appointment.
  rewrite Happt. cbv zeta. rewrite Hrec, Htimed.
  destruct (truthy_str (Patch.status body) && _); [done|].
  rewrite !andb_true_r. simpl andb.
  destruct (bool_decide (_ = "series"%string)) eqn:Hseries.
  { intros [= <-]. proj_simpl. by apply update_keeps_keys. }
  apply bool_decide_eq_false in Hseries.
  apply elem_of_cons in Hscope as [Hthis|Hscope];
    [|by apply list_elem_of_singleton in Hscope].
  rewrite (bool_decide_eq_true_2 _ Hthis).
  destruct (bool_decide (exId ∈ _)); cbn [left_by]; intros [= <-]; [done|].
  proj_simpl. by apply update_keeps_keys.
Qed.

(** X23. A series-scope PATCH with a start or an end, sent for an
    appointment of a series, only shifts: the appointment lands on the
    requested start (it stays where it is when only an end is given), the
    anchor of its series moves by the same amount, every appointment keeps
    its length whatever end the request names, and no exception row is
    touched. *)
Theorem series_edit_only_shifts db exId id startAt endAt status appt series
    db' note :
  appointment_by_id db id = Some appt →
  Appointment.recurring_series_id appt = Some (Series.id series) →
  Series.id series ≠ ""%string →
  series_by_id db (Series.id series) = Some series →
  truthy_num startAt || truthy_num endAt = true →
  patch_appointment db exId id (Patch.mk startAt endAt status (Some "series"%string))
  = Wrote db' note →
  (Appointment.start_at <$> appointment_by_id db' id)
  = Some (Js.or_num startAt (Appointment.start_at appt))
  ∧ (Series.dtstart <$> series_by_id db' (Series.id series))
    = Some (Series.dtstart series
            + (Js.or_num startAt (Appointment.start_at appt)
               - Appointment.start_at appt))
  ∧ map duration (appointments db') = map duration (appointments db)
  ∧ recurring_exceptions db' = recurring_exceptions db.
Proof.
  intros Happt Hsid Hne Hseries Htimed. unfold patch_appointment.
  rewrite Happt. cbv zeta. cbn [Patch.startAt Patch.endAt Patch.status
                                 Patch.scope default].
  rewrite Hsid, Htimed.
  assert (Hrec : truthy_str (Some (Series.id series)) = true)
    by (by destruct (Series.id series)).
  rewrite Hrec. simpl andb.
  destruct (truthy_str status && _); [done|].
  intros [= <- _]. proj_simpl. cbn [default].
  split_and!.
  - unfold appointment_by_id in *. proj_simpl.
    rewrite (head_filter_update Appointment.id) by done.
    rewrite Happt. simpl. rewrite Hsid.
    rewrite bool_decide_eq_true_2 by done. simpl. f_equal. lia.
  - unfold series_by_id in *. proj_simpl.
    rewrite (head_filter_update Series.id _
               (fun s => bool_decide (Series.id s = Series.id series)))
      by done.
    rewrite Hseries. simpl.
    by rewrite bool_decide_eq_true_2 by done.
  - rewrite map_map. apply map_ext. intros a.
    destruct (bool_decide _); [|done]. unfold duration. simpl. lia.
  - done.
Qed.


(** X25. A name made by safeName is not empty, has at most 128
    characters, none of them a backslash, slash, colon, asterisk, question
    mark, double quote, angle bracket or bar, and safeName leaves it as it
    is. *)
Theorem safeName_is_safe s :
  safeName s ≠ ""%string
  ∧ (String.length (safeName s) ≤ 128)%nat
  ∧ Forall (fun c => forbidden c = false)
      (String.list_ascii_of_string (safeName s))
  ∧ safeName (Some (safeName s)) = safeName s.
Proof.
  assert (Hgen : ∀ r, r ≠ ""%string → (String.length r ≤ 128)%nat →
            Forall (fun c => forbidden c = false)
              (String.list_ascii_of_string r) →
            safeName (Some r) = r).
  { intros r Hr Hlen Hclean. unfold safeName.
    assert (Hor : Js.or_str (Some r) "" = r) by (by destruct r).
    rewrite Hor, replace_forbidden_clean, slice0_short by done.
    by destruct r. }
  pose proof (slice0_length 128 (replace_forbidden (Js.or_str s ""))) as Hlen.
  pose proof (slice0_chars _ 128 _
                (replace_forbidden_chars (Js.or_str s ""))) as Hclean.
  assert (Hs : safeName s
               = match slice0 128 (replace_forbidden (Js.or_str s "")) with
                 | EmptyString => "untitled"%string
                 | u => u
                 end).
  { unfold safeName.
    by destruct (slice0 128 (replace_forbidden (Js.or_str s ""))). }
  rewrite Hs.
  destruct (slice0 128 (replace_forbidden (Js.or_str s ""))) as [|c r].
  - split; [done|]. split; [simpl; lia|].
    split; [by repeat constructor|]. reflexivity.
  - split; [done|]. split; [done|]. split; [done|]. by apply Hgen.
Qed.

(** X26. nextScheduledAt is the earliest start among the client's
    'Scheduled' appointments that start after now; it is null when there is
    none, or when that earliest start is 0. *)
Theorem next_scheduled_is_earliest db now clientId t :
  Stats.nextScheduledAt (getClientStats db now clientId) = Some t
  ↔ t ≠ 0
    ∧ (∃ a, a ∈ appointments db ∧ upcoming_of clientId now a
            ∧ Appointment.start_at a = t)
    ∧ (∀ a, a ∈ appointments db → upcoming_of clientId now a →
            t ≤ Appointment.start_at a).
Proof.
  unfold getClientStats. simpl. rewrite or_null_Some, sql_min_spec. split.
  - intros [[Hin Hmin] Ht]. split; [done|]. split.
    + apply list_elem_of_fmap in Hin as (a&->&[Hup Ha]%list_elem_of_filter).
      by exists a.
    + intros a Ha Hup. apply Hmin.
      apply (list_elem_of_fmap_2 Appointment.start_at).
      by apply list_elem_of_filter.
  - intros (Ht&(a&Ha&Hup&<-)&Hmin). split; [|done]. split.
    + apply (list_elem_of_fmap_2 Appointment.start_at).
      by apply list_elem_of_filter.
    + intros y (b&->&[Hup' Hb]%list_elem_of_filter)%list_elem_of_fmap.
      by apply Hmin.
Qed.

(** X27. lastCompletedAt is the latest start among the client's
    'Completed' appointments; it is null when there is none, or when that
    latest start is 0. completedCount and totalHours are both the number of
    these appointments. *)
Theorem last_completed_is_latest db now clientId t :
  (Stats.lastCompletedAt (getClientStats db now clientId) = Some t
   ↔ t ≠ 0
     ∧ (∃ a, a ∈ appointments db ∧ completed_of clientId a
             ∧ Appointment.start_at a = t)
     ∧ (∀ a, a ∈ appointments db → completed_of clientId a →
             Appointment.start_at a ≤ t))
  ∧ Stats.totalHours (getClientStats db now clientId)
    = Stats.completedCount (getClientStats db now clientId)
  ∧ Stats.completedCount (getClientStats db now clientId)
    = Z.of_nat (length (filter (completed_of clientId) (appointments db))).
Proof.
  split; [|done].
  unfold getClientStats. simpl. rewrite or_null_Some, sql_max_spec. split.
  - intros [[Hin Hmax] Ht]. split; [done|]. split.
    + apply list_elem_of_fmap in Hin as (a&->&[Hup Ha]%list_elem_of_filter).
      by exists a.
    + intros a Ha Hup. apply Hmax.
      apply (list_elem_of_fmap_2 Appointment.start_at).
      by apply list_elem_of_filter.
  - intros (Ht&(a&Ha&Hup&<-)&Hmax). split; [|done]. split.
    + apply (list_elem_of_fmap_2 Appointment.start_at).
      by apply list_elem_of_filter.
    + intros y (b&->&[Hup' Hb]%list_elem_of_filter)%list_elem_of_fmap.
      by apply Hmax.
Qed.

(** ** The properties at sample inputs *)

(** X2 at the occurrence of 2025-10-15 10:00 of the Wednesday series. *)
Lemma occurrence_is_generated_witness :
  instance_at (wednesday_series "FREQ=WEEKLY;BYDAY=WE") 1760522400000
  ∈ genWeeklyInstances utc (wednesday_series "FREQ=WEEKLY;BYDAY=WE")
      1760313600000 1760918340000.
Proof.
  apply (occurrence_is_generated 0 Js.ascii_upper
           (wednesday_series "FREQ=WEEKLY;BYDAY=WE")
           1760313600000 1760918340000 1760522400000).
  - reflexivity.
  - unfold occurs. split_and!; try (vm_compute; reflexivity); try done.
Defined.

(** X5 at the second of the two weeks from 2025-10-06. *)
Lemma sub_window_is_a_filter_witness :
  genWeeklyInstances utc (wednesday_series "FREQ=WEEKLY") 1760313600000
    1760918340000
  = filter (fun i => 1760313600000 ≤ Instance.start_at i ≤ 1760918340000)
      (genWeeklyInstances utc (wednesday_series "FREQ=WEEKLY") 1759708800000
         1760918340000).
Proof.
  apply (sub_window_is_a_filter 0 Js.ascii_upper
           (wednesday_series "FREQ=WEEKLY")
           1759708800000 1760918340000 1760313600000 1760918340000).
  - reflexivity.
  - lia.
  - lia.
Defined.

(** X6 at a fortnightly rule: the occurrence two weeks after dtstart. *)
Lemma weekly_rule_every_n_weeks_witness :
  Instance.mk 1761127200000 1761127200000 1761130200000
  ∈ genWeeklyInstances utc (wednesday_series "FREQ=WEEKLY;INTERVAL=2")
      1760918400000 1761523140000.
Proof.
  apply (weekly_rule_every_n_weeks 0 Js.ascii_upper
           (wednesday_series "FREQ=WEEKLY;INTERVAL=2")
           1760918400000 1761523140000 2).
  - vm_compute. reflexivity.
  - vm_compute. reflexivity.
  - vm_compute. reflexivity.
  - lia.
  - reflexivity.
  - reflexivity.
  - reflexivity.
  - exists 1. split; [lia|]. split; [vm_compute; split; discriminate|].
    reflexivity.
Defined.

(** X7 at the Wednesday series read in the zone UTC+8. *)
Lemma generation_is_zone_independent_witness :
  genWeeklyInstances (fixed_zone 28800000 Js.ascii_upper)
    (zone_series 28800000 (wednesday_series "FREQ=WEEKLY"))
    (1760313600000 - 28800000) (1760918340000 - 28800000)
  = map (zone_instance 28800000)
      (genWeeklyInstances (fixed_zone 0 Js.ascii_upper)
         (wednesday_series "FREQ=WEEKLY") 1760313600000 1760918340000).
Proof.
  apply (generation_is_zone_independent 28800000 Js.ascii_upper
           (wednesday_series "FREQ=WEEKLY") 1760313600000 1760918340000).
  reflexivity.
Defined.

(** X8 at a lower-case pair that replaces the frequency. *)
Lemma appended_pair_sets_key_witness :
  parseRRule Js.ascii_upper
    ("FREQ=DAILY" +:+ String ";" ("freq" +:+ String "=" "WEEKLY"))
  = <["FREQ"%string := "WEEKLY"%string]>
      (parseRRule Js.ascii_upper "FREQ=DAILY").
Proof.
  apply (appended_pair_sets_key Js.ascii_upper "FREQ=DAILY" "freq" "WEEKLY").
  - discriminate.
  - discriminate.
  - repeat (constructor; [split; discriminate|]). constructor.
  - repeat (constructor; [split; discriminate|]). constructor.
Defined.

(** X9 at a rule written in lower case. *)
Lemma parsed_keys_are_upper_case_witness :
  "FREQ"%string ≠ ""%string ∧ "weekly"%string ≠ ""%string
  ∧ Js.ascii_upper "FREQ" = "FREQ"%string.
Proof.
  apply (parsed_keys_are_upper_case "freq=weekly;Interval=2" "FREQ" "weekly").
  vm_compute. reflexivity.
Defined.

(** X10 at the two weeks from 2025-10-06 of the sample store. *)
Lemma week_events_in_window_witness :
  Forall
    (fun ev =>
       (Event.source ev = "single"%string
        ∧ 1759708800000 ≤ Event.startAt ev ≤ 1760918340000)
       ∨ (Event.source ev = "recurring"%string
          ∧ Event.status ev = "Scheduled"%string
          ∧ ∃ series at_,
              series ∈ recurring_series
                         (sample_db "FREQ=WEEKLY;BYDAY=WE" [thursday_move])
              ∧ Event.id ev = virtual_id series at_
              ∧ Event.recurringSeriesId ev = Some (Series.id series)
              ∧ Event.originalInstanceAt ev = Some at_
              ∧ occurs 0 Js.ascii_upper series 1759708800000 1760918340000
                  at_))
    (sort_events
       (eventList utc (sample_db "FREQ=WEEKLY;BYDAY=WE" [thursday_move])
          1759708800000 1760918340000)).
Proof.
  apply (week_events_in_window 0 Js.ascii_upper
           (sample_db "FREQ=WEEKLY;BYDAY=WE" [thursday_move])
           1759708800000 1760918340000).
  reflexivity.
Defined.

(** X11 at a window that ends before the sample series starts. *)
Lemma series_filter_drops_nothing_witness :
  flat_map
    (series_events utc (sample_db "FREQ=WEEKLY" []) 1759104000000
       1759708740000)
    (seriesRows (sample_db "FREQ=WEEKLY" []) 1759104000000 1759708740000)
  = flat_map
      (series_events utc (sample_db "FREQ=WEEKLY" []) 1759104000000
         1759708740000)
      (recurring_series (sample_db "FREQ=WEEKLY" [])).
Proof.
  apply (series_filter_drops_nothing utc (sample_db "FREQ=WEEKLY" [])
           1759104000000 1759708740000).
  constructor; [discriminate|constructor].
Defined.

(** X13 at the sample store. *)
Lemma export_never_marks_cancelled_witness :
  Forall (fun line => line ≠ "STATUS:CANCELLED"%string)
    (text_lines
       (ics (sample_db "FREQ=WEEKLY;BYDAY=WE" []) (fun _ => 1760522400000))).
Proof.
  apply (export_never_marks_cancelled (sample_db "FREQ=WEEKLY;BYDAY=WE" [])
           (fun _ => 1760522400000)).
  apply sample_db_one_line. by repeat constructor.
Defined.

(** X16 at the sample store: one pair, that of the anchor. *)
Lemma vevents_are_well_nested_witness :
  filter is_delimiter
    (text_lines
       (ics (sample_db "FREQ=WEEKLY;BYDAY=WE" []) (fun _ => 1760522400000)))
  = ["BEGIN:VEVENT"; "END:VEVENT"]%string.
Proof.
  apply (vevents_are_well_nested (sample_db "FREQ=WEEKLY;BYDAY=WE" [])
           (fun _ => 1760522400000)).
  apply sample_db_one_line. by repeat constructor.
Defined.

(** X17 at the store left by a moved anchor. *)
Lemma reachable_store_keys_witness : store_keys moved_anchor_db.
Proof. apply reachable_store_keys, reachable_moved_anchor. Defined.

(** X18 at the same store. *)
Lemma reachable_series_links_witness :
  (∀ a sid, a ∈ appointments moved_anchor_db →
            Appointment.recurring_series_id a = Some sid →
            ∃ s, series_by_id moved_anchor_db sid = Some s
                 ∧ Series.client_id s = Appointment.client_id a)
  ∧ NoDup (omap Appointment.recurring_series_id (appointments moved_anchor_db)).
Proof. apply reachable_series_links, reachable_moved_anchor. Defined.

(** X19 at the same store. *)
Lemma reachable_exceptions_are_moves_witness :
  Forall
    (fun e => Exception.status e = "Moved"%string
              ∧ is_Some (Exception.new_start_at e)
              ∧ is_Some (Exception.new_end_at e)
              ∧ is_Some (series_by_id moved_anchor_db
                           (Exception.recurring_series_id e)))
    (recurring_exceptions moved_anchor_db).
Proof. apply reachable_exceptions_are_moves, reachable_moved_anchor. Defined.

(** X20 at the same store and the two weeks from 2025-10-06. *)
Lemma no_occurrence_is_suppressed_witness :
  map Event.originalInstanceAt
    (series_events utc moved_anchor_db 1759708800000 1760918340000
       (wednesday_series "FREQ=WEEKLY;BYDAY=WE"))
  = map (fun item => Some (Instance.original_instance_at item))
      (genWeeklyInstances utc (wednesday_series "FREQ=WEEKLY;BYDAY=WE")
         1759708800000 1760918340000).
Proof. apply no_occurrence_is_suppressed, reachable_moved_anchor. Defined.

(** X21 at the request that creates the sample series and its anchor. *)
Lemma created_appointment_is_listed_witness :
  ∃ ev, ev ∈ sort_events
               (eventList utc (sample_db "FREQ=WEEKLY" []) 1759708800000
                  1760313540000)
        ∧ Event.id ev = "a1"%string
        ∧ Event.source ev = "single"%string
        ∧ Event.startAt ev = 1759917600000
        ∧ Event.endAt ev = 1759917600000 + 50 * 60000
        ∧ Event.status ev = "Scheduled"%string.
Proof.
  apply (created_appointment_is_listed utc
           {| clients := [Client.mk "c1" "Ann"]; appointments := [];
              recurring_series := []; recurring_exceptions := [] |}
           "s1" "a1" (weekly_request "FREQ=WEEKLY")
           (sample_db "FREQ=WEEKLY" []) false 1759917600000
           1759708800000 1760313540000).
  - reflexivity.
  - reflexivity.
  - lia.
  - reflexivity.
Defined.

(** X22 at a request that names both a new start and the status
    'Canceled': the anchor is moved and stays 'Scheduled'. *)
Lemma time_edit_keeps_status_witness :
  map Appointment.status (appointments moved_anchor_db)
  = map Appointment.status
      (appointments (sample_db "FREQ=WEEKLY;BYDAY=WE" [])).
Proof.
  apply (time_edit_keeps_status (sample_db "FREQ=WEEKLY;BYDAY=WE" [])
           "e1" "a1"
           (Patch.mk (Some 1760018400000) (Some 1760021400000)
              (Some "Canceled"%string) None)
           wednesday_anchor).
  - reflexivity.
  - reflexivity.
  - reflexivity.
  - left.
  - reflexivity.
Defined.

(** X23 at a series-scope request that moves the anchor by one hour and
    names an end three hours later. *)
Lemma series_edit_only_shifts_witness :
  ∃ db',
    patch_appointment (sample_db "FREQ=WEEKLY" []) "e1" "a1"
      (Patch.mk (Some 1759921200000) (Some 1759932000000) None
         (Some "series"%string))
    = Wrote db' false
    ∧ (Appointment.start_at <$> appointment_by_id db' "a1")
      = Some 1759921200000
    ∧ (Series.dtstart <$> series_by_id db' "s1") = Some 1759921200000
    ∧ map duration (appointments db') = [3000000]
    ∧ recurring_exceptions db' = [].
Proof.
  eexists. split; [reflexivity|].
  apply (series_edit_only_shifts (sample_db "FREQ=WEEKLY" []) "e1" "a1"
           (Some 1759921200000) (Some 1759932000000) None wednesday_anchor
           (wednesday_series "FREQ=WEEKLY") _ false).
  - reflexivity.
  - reflexivity.
  - discriminate.
  - reflexivity.
  - reflexivity.
  - reflexivity.
Defined.

